(** * NotQuiteParadise: the simulation core, embedded and verified

    A shallow embedding of the entity store helpers ([existence.py]), the
    activation and field-of-view passes ([system.py]), the skill activation
    loops ([skills.py]) and the entity event handlers ([entity_handler.py]),
    followed by the theorems that relate them to the specification.

    Python integers are unbounded, so they are [Z].  The snecs world is a finite
    map from entity ids to the components the entity holds.  Mutation, logging,
    event publication and exceptions are threaded through one state-and-error
    monad [M]. *)

From Stdlib Require Import ZArith QArith.
From stdpp Require Import gmap strings list fin_maps relations pretty.

Local Open Scope Z_scope.

(** ** Python runtime: exceptions and the state monad *)

(** The exceptions that the embedded code can raise. *)
Inductive Exn : Type :=
| AttributeError (msg : string)
| KeyError (msg : string)
| ValueError (msg : string)
| IndexError (msg : string).

Inductive Outcome (A : Type) : Type :=
| Ok (a : A)
| Raise (e : Exn).
Arguments Ok {A} a.
Arguments Raise {A} e.

Definition EntityID := nat.

(** ** Components (the fields the embedded code reads or writes) *)

Record Position := mkPosition {
  x : Z;
  y : Z;
  coordinates : list (Z * Z)
}.

Record Resources := mkResources { health : Z; stamina : Z }.
Record Tracked := mkTracked { time_spent : Z }.
Record Identity := mkIdentity { name : string; description : string }.
Record Physicality := mkPhysicality { height : Z }.
Record Sight := mkSight { sight_range : Z }.

(** A two-dimensional numpy array of booleans, indexed [arr[x, y]]. *)
Record Array2D := mkArray2D {
  arr_width : Z;
  arr_height : Z;
  arr_cell : Z -> Z -> bool
}.

Record FOV := mkFOV { map : Array2D }.

(** A behaviour policy is an opaque strategy object; [act] is supplied by the
    content layer (class [Thought] below). *)
Definition Policy := nat.
Record Behaviour := mkBehaviour { behaviour : Policy }.

(** The components one entity holds: at most one instance per kind.  Kinds that
    carry no data read by the embedded code are presence flags. *)
Record Components := mkComponents {
  c_position : option Position;
  c_resources : option Resources;
  c_tracked : option Tracked;
  c_identity : option Identity;
  c_physicality : option Physicality;
  c_sight : option Sight;
  c_fov : option FOV;
  c_behaviour : option Behaviour;
  c_is_active : option unit;
  c_is_player : option unit;
  c_is_god : option unit;
  c_combat_stats : option unit;
  c_traits : option unit;
  c_immunities : option unit
}.

(** Component classes as first-class values, indexed by the instance type. *)
Inductive ComponentType : Type -> Type :=
| TPosition : ComponentType Position
| TResources : ComponentType Resources
| TTracked : ComponentType Tracked
| TIdentity : ComponentType Identity
| TPhysicality : ComponentType Physicality
| TSight : ComponentType Sight
| TFOV : ComponentType FOV
| TBehaviour : ComponentType Behaviour
| TIsActive : ComponentType unit
| TIsPlayer : ComponentType unit
| TIsGod : ComponentType unit.

Definition component_name {A} (t : ComponentType A) : string :=
  match t with
  | TPosition => "Position" | TResources => "Resources" | TTracked => "Tracked"
  | TIdentity => "Identity" | TPhysicality => "Physicality" | TSight => "Sight"
  | TFOV => "FOV" | TBehaviour => "Behaviour" | TIsActive => "IsActive"
  | TIsPlayer => "IsPlayer" | TIsGod => "IsGod"
  end.

Definition comp_get {A} (t : ComponentType A) (c : Components) : option A :=
  match t in ComponentType T return option T with
  | TPosition => c_position c
  | TResources => c_resources c
  | TTracked => c_tracked c
  | TIdentity => c_identity c
  | TPhysicality => c_physicality c
  | TSight => c_sight c
  | TFOV => c_fov c
  | TBehaviour => c_behaviour c
  | TIsActive => c_is_active c
  | TIsPlayer => c_is_player c
  | TIsGod => c_is_god c
  end.

Definition comp_set {A} (t : ComponentType A) : option A -> Components -> Components :=
  match t in ComponentType T return option T -> Components -> Components with
  | TPosition => fun v c =>
      mkComponents v (c_resources c) (c_tracked c) (c_identity c) (c_physicality c) (c_sight c)
        (c_fov c) (c_behaviour c) (c_is_active c) (c_is_player c) (c_is_god c)
        (c_combat_stats c) (c_traits c) (c_immunities c)
  | TResources => fun v c =>
      mkComponents (c_position c) v (c_tracked c) (c_identity c) (c_physicality c) (c_sight c)
        (c_fov c) (c_behaviour c) (c_is_active c) (c_is_player c) (c_is_god c)
        (c_combat_stats c) (c_traits c) (c_immunities c)
  | TTracked => fun v c =>
      mkComponents (c_position c) (c_resources c) v (c_identity c) (c_physicality c) (c_sight c)
        (c_fov c) (c_behaviour c) (c_is_active c) (c_is_player c) (c_is_god c)
        (c_combat_stats c) (c_traits c) (c_immunities c)
  | TIdentity => fun v c =>
      mkComponents (c_position c) (c_resources c) (c_tracked c) v (c_physicality c) (c_sight c)
        (c_fov c) (c_behaviour c) (c_is_active c) (c_is_player c) (c_is_god c)
        (c_combat_stats c) (c_traits c) (c_immunities c)
  | TPhysicality => fun v c =>
      mkComponents (c_position c) (c_resources c) (c_tracked c) (c_identity c) v (c_sight c)
        (c_fov c) (c_behaviour c) (c_is_active c) (c_is_player c) (c_is_god c)
        (c_combat_stats c) (c_traits c) (c_immunities c)
  | TSight => fun v c =>
      mkComponents (c_position c) (c_resources c) (c_tracked c) (c_identity c) (c_physicality c) v
        (c_fov c) (c_behaviour c) (c_is_active c) (c_is_player c) (c_is_god c)
        (c_combat_stats c) (c_traits c) (c_immunities c)
  | TFOV => fun v c =>
      mkComponents (c_position c) (c_resources c) (c_tracked c) (c_identity c) (c_physicality c)
        (c_sight c) v (c_behaviour c) (c_is_active c) (c_is_player c) (c_is_god c)
        (c_combat_stats c) (c_traits c) (c_immunities c)
  | TBehaviour => fun v c =>
      mkComponents (c_position c) (c_resources c) (c_tracked c) (c_identity c) (c_physicality c)
        (c_sight c) (c_fov c) v (c_is_active c) (c_is_player c) (c_is_god c)
        (c_combat_stats c) (c_traits c) (c_immunities c)
  | TIsActive => fun v c =>
      mkComponents (c_position c) (c_resources c) (c_tracked c) (c_identity c) (c_physicality c)
        (c_sight c) (c_fov c) (c_behaviour c) v (c_is_player c) (c_is_god c)
        (c_combat_stats c) (c_traits c) (c_immunities c)
  | TIsPlayer => fun v c =>
      mkComponents (c_position c) (c_resources c) (c_tracked c) (c_identity c) (c_physicality c)
        (c_sight c) (c_fov c) (c_behaviour c) (c_is_active c) v (c_is_god c)
        (c_combat_stats c) (c_traits c) (c_immunities c)
  | TIsGod => fun v c =>
      mkComponents (c_position c) (c_resources c) (c_tracked c) (c_identity c) (c_physicality c)
        (c_sight c) (c_fov c) (c_behaviour c) (c_is_active c) (c_is_player c) v
        (c_combat_stats c) (c_traits c) (c_immunities c)
  end.

Definition no_components : Components :=
  mkComponents None None None None None None None None None None None None None None.

(** ** Events and log records *)

Inductive MessageType := LOG.

Inductive Event : Type :=
| MessageEvent (message_type : MessageType) (message : string)
| EndTurnEvent (entity : EntityID) (time_spent : Z)
| UseSkillEvent (entity : EntityID) (skill_name : string) (start_pos direction : Z * Z)
| DieEvent (dying_entity : EntityID).

Inductive LogRecord : Type :=
| LogComponentNotFound (entity : EntityID) (component : string)
| LogDebug (msg : string)
| LogInfo (msg : string)
| LogWarning (msg : string)
| LogError (msg : string).

(** ** The process-wide state *)

Record State := mkState {
  world : gmap EntityID Components;        (* snecs default world *)
  deletion_schedule : gset EntityID;       (* snecs: the set of entities to delete *)
  log : list LogRecord;                    (* logging / debug module *)
  published : list Event;                  (* events handed to publisher.publish *)
  time : Z;                                (* hourglass / chapter global time *)
  turn_queue : gmap EntityID Z;            (* chrono turn queue: entity -> time *)
  turn_holder : option EntityID;           (* chrono turn holder *)
  block_sight_map : Array2D                (* game_map.block_sight_map *)
}.

Definition set_world (f : gmap EntityID Components -> gmap EntityID Components) (s : State)
  : State :=
  mkState (f (world s)) (deletion_schedule s) (log s) (published s) (time s)
    (turn_queue s) (turn_holder s) (block_sight_map s).

Definition set_deletion_schedule (f : gset EntityID -> gset EntityID) (s : State) : State :=
  mkState (world s) (f (deletion_schedule s)) (log s) (published s) (time s)
    (turn_queue s) (turn_holder s) (block_sight_map s).

Definition set_log (f : list LogRecord -> list LogRecord) (s : State) : State :=
  mkState (world s) (deletion_schedule s) (f (log s)) (published s) (time s)
    (turn_queue s) (turn_holder s) (block_sight_map s).

Definition set_published (f : list Event -> list Event) (s : State) : State :=
  mkState (world s) (deletion_schedule s) (log s) (f (published s)) (time s)
    (turn_queue s) (turn_holder s) (block_sight_map s).

Definition set_turn_queue (f : gmap EntityID Z -> gmap EntityID Z) (s : State) : State :=
  mkState (world s) (deletion_schedule s) (log s) (published s) (time s)
    (f (turn_queue s)) (turn_holder s) (block_sight_map s).

(** Computations: read and write the state, return a value or raise. A raised
    exception keeps every mutation made before it, as in Python. *)
Definition M (A : Type) : Type := State -> Outcome A * State.

Definition ret {A} (a : A) : M A := fun s => (Ok a, s).

Definition bind {A B} (m : M A) (k : A -> M B) : M B :=
  fun s => match m s with
           | (Ok a, s') => k a s'
           | (Raise e, s') => (Raise e, s')
           end.

Definition raise {A} (e : Exn) : M A := fun s => (Raise e, s).
Definition get_state : M State := fun s => (Ok s, s).
Definition modify (f : State -> State) : M unit := fun s => (Ok tt, f s).

Declare Scope py_scope.
Delimit Scope py_scope with py.
Notation "'let*' x ':=' m 'in' k" := (bind m (fun x => k))
  (at level 10, x pattern, m at level 100, k at level 200) : py_scope.
Notation "m1 '>>' m2" := (bind m1 (fun _ => m2))
  (at level 100, m2 at level 200, right associativity) : py_scope.
Local Open Scope py_scope.

(** [for a in l: body a] *)
Fixpoint for_each {A} (l : list A) (body : A -> M unit) : M unit :=
  match l with
  | [] => ret tt
  | a :: l' => body a >> for_each l' body
  end.

(** A loop that threads a local variable [b] through its iterations. *)
Fixpoint fold_m {A B} (l : list A) (body : B -> A -> M B) (b : B) : M B :=
  match l with
  | [] => ret b
  | a :: l' => let* b' := body b a in fold_m l' body b'
  end.

(** [try: m except KeyError: handler] *)
Definition try_except_KeyError {A} (m : M A) (handler : M A) : M A :=
  fun s => match m s with
           | (Raise (KeyError _), s') => handler s'
           | r => r
           end.

(** [publisher.publish(event)]: the event is handed to the bus.  Subscribers
    live outside the embedded files; the bus keeps the order of publication. *)
Definition publish (ev : Event) : M unit :=
  modify (set_published (fun evs => evs ++ [ev])).

Definition logging (r : LogRecord) : M unit :=
  modify (set_log (fun l => l ++ [r])).

(** Attribute access [obj.attr] on an [Optional] value: [None] has no
    attributes. *)
Definition attr_of {A} (obj : option A) (attr : string) : M A :=
  match obj with
  | Some a => ret a
  | None => raise (AttributeError ("'NoneType' object has no attribute '" +:+ attr +:+ "'"))
  end.

(** ** snecs primitives

    The entity store is the external snecs package; these are its operations as
    the embedded code uses them.  A lookup on an entity that is not in the world
    raises [KeyError]; attaching a second instance of a kind is rejected with
    [ValueError]; removing a kind that is not attached raises [KeyError]; a
    query is a finite snapshot of the entities that hold the requested
    component, taken when the loop starts. *)

Definition entity_components (entity : EntityID) : M Components :=
  fun s => match world s !! entity with
           | Some c => (Ok c, s)
           | None => (Raise (KeyError ("entity " +:+ pretty entity)), s)
           end.

Definition has_component {A} (entity : EntityID) (component : ComponentType A) : M bool :=
  let* c := entity_components entity in
  ret (bool_decide (is_Some (comp_get component c))).

Definition snecs_entity_component {A} (entity : EntityID) (component : ComponentType A) : M A :=
  let* c := entity_components entity in
  match comp_get component c with
  | Some a => ret a
  | None => raise (KeyError (component_name component))
  end.

Definition snecs_add_component {A} (entity : EntityID) (component : ComponentType A) (v : A)
  : M unit :=
  let* c := entity_components entity in
  match comp_get component c with
  | Some _ => raise (ValueError (component_name component))
  | None => modify (set_world (insert entity (comp_set component (Some v) c)))
  end.

Definition snecs_remove_component {A} (entity : EntityID) (component : ComponentType A) : M unit :=
  let* c := entity_components entity in
  match comp_get component c with
  | Some _ => modify (set_world (insert entity (comp_set component None c)))
  | None => raise (KeyError (component_name component))
  end.

Definition snecs_exists (entity : EntityID) : M bool :=
  fun s => (Ok (bool_decide (is_Some (world s !! entity))), s).

(** [snecs.schedule_for_deletion(entity)]: the pending deletions are a set, so
    scheduling an entity a second time changes nothing. *)
Definition schedule_for_deletion (entity : EntityID) : M unit :=
  modify (set_deletion_schedule (fun d => {[ entity ]} ∪ d)).

(** [Query([component])]: the entities holding [component], with the instance. *)
Definition query {A} (component : ComponentType A) (s : State) : list (EntityID * A) :=
  omap (fun '(e, c) => (fun a => (e, a)) <$> comp_get component c) (map_to_list (world s)).

(** In-place mutation of a component instance obtained from the store: the
    instance is shared with the world, so the world sees the new field values. *)
Definition store_component {A} (entity : EntityID) (component : ComponentType A) (v : A)
  : M unit :=
  modify (set_world (alter (comp_set component (Some v)) entity)).

(** ** existence.py *)

Module existence.

(** [debug.log_component_not_found(entity, component)] *)
Definition log_component_not_found {A} (entity : EntityID) (component : ComponentType A)
  : M unit :=
  logging (LogComponentNotFound entity (component_name component)).

Definition get_player : M (option EntityID) :=
  let* s := get_state in
  match query TIsPlayer s with
  | (entity, _) :: _ => ret (Some entity)
  | [] => ret None
  end.

Definition get_entitys_component {A} (entity : EntityID) (component : ComponentType A)
  : M (option A) :=
  let* has := has_component entity component in
  if has then
    let* c := snecs_entity_component entity component in ret (Some c)
  else
    log_component_not_found entity component >> ret None.

Definition get_identity (entity : EntityID) : M (option Identity) :=
  get_entitys_component entity TIdentity.

Definition get_name (entity : EntityID) : M string :=
  let* identity := get_identity entity in
  match identity with
  | Some i => ret (name i)
  | None => ret "not found"
  end.

Definition add_component {A} (entity : EntityID) (component : ComponentType A) (v : A) : M unit :=
  snecs_add_component entity component v.

Definition delete (entity : EntityID) : M unit :=
  if negb (Nat.eqb entity 0) then
    let* ex := snecs_exists entity in
    if ex then
      schedule_for_deletion entity >>
      let* name := get_name entity in
      logging (LogInfo ("'" +:+ name +:+ "' (" +:+ pretty entity
                        +:+ ") added to stack to be deleted on next frame."))
    else
      logging (LogWarning ("Tried to delete entity " +:+ pretty entity
                           +:+ " but they don't exist!"))
  else
    logging (LogError "Tried to delete an entity but entity was None.").

Definition spend_time (entity : EntityID) (time_spent : Z) : M unit :=
  try_except_KeyError
    (let* tracked := get_entitys_component entity TTracked in
     let* t := attr_of tracked "time_spent" in
     let 'mkTracked total := t in
     store_component entity TTracked (mkTracked (total + time_spent)))
    (log_component_not_found entity TTracked).

Definition apply_damage (entity : EntityID) (damage : Z) : M Z :=
  let* resource := get_entitys_component entity TResources in
  let* r := attr_of resource "health" in
  let r' := mkResources (health r - damage) (stamina r) in
  store_component entity TResources r' >>
  ret (health r').

(** The behaviour policies are content; only their [act] capability is used. *)
Class Thought := { act : Policy -> M unit }.

Definition take_turn `{Thought} (entity : EntityID) : M unit :=
  let* name := get_name entity in
  logging (LogDebug ("'" +:+ name +:+ "' is beginning their turn.")) >>
  let* behaviour := get_entitys_component entity TBehaviour in
  let* b := attr_of behaviour "behaviour" in
  let 'mkBehaviour policy := b in
  act policy.

End existence.

(** ** system.py *)

(** Constants of [scripts.engine.internal.constant] that the passes read. *)
Class Constant := { MAX_ACTIVATION_DISTANCE : Z }.

(** [tcod.map.compute_fov(transparency, origin, radius, FOV_LIGHT_WALLS,
    FOV_ALGORITHM)] of the external tcod package. *)
Class Tcod := { compute_fov : Array2D -> Z * Z -> Z -> Array2D }.

(** numpy indexing along one axis of length [n]: negative indices count from
    the end, anything else out of range is an [IndexError]. *)
Definition normalize_index (n i : Z) : option Z :=
  if (0 <=? i) && (i <? n) then Some i
  else if (- n <=? i) && (i <? 0) then Some (i + n)
  else None.

(** [arr[x, y] = v] *)
Definition array_set (arr : Array2D) (x y : Z) (v : bool) : M Array2D :=
  match normalize_index (arr_width arr) x, normalize_index (arr_height arr) y with
  | Some i, Some j =>
      ret (mkArray2D (arr_width arr) (arr_height arr)
             (fun i' j' => if (i' =? i) && (j' =? j) then v else arr_cell arr i' j'))
  | _, _ => raise (IndexError "index is out of bounds")
  end.

(** [system.py] reaches the entity store through the module [matter], the
    later name of [existence.py]; its calls are those of [existence] above.  The
    [assert isinstance] lines of [process_fov] hold by typing. *)
Module system.
Import existence.

(** Modelled from the spec: [query.not_position], the entities that hold no
    Position component (the query module is not part of the embedded files). *)
Definition not_position (s : State) : list (EntityID * Components) :=
  filter (fun ec => c_position ec.2 = None) (map_to_list (world s)).

(** Modelled from the spec: [query.active_and_position_and_physicality]. *)
Definition active_and_position_and_physicality (s : State)
  : list (EntityID * (Position * Physicality)) :=
  omap (fun '(e, c) =>
          match c_is_active c, c_position c, c_physicality c with
          | Some _, Some pos, Some phys => Some (e, (pos, phys))
          | _, _, _ => None
          end) (map_to_list (world s)).

(** Modelled from the spec: [query.active_actors], the entities holding every
    component that the loop in [process_fov] unpacks. *)
Definition active_actors (s : State) : list (EntityID * (Position * Physicality)) :=
  omap (fun '(e, c) =>
          match c_is_active c, c_position c, c_physicality c, c_identity c, c_combat_stats c,
                c_traits c, c_fov c, c_tracked c, c_immunities c with
          | Some _, Some pos, Some phys, Some _, Some _, Some _, Some _, Some _, Some _ =>
              Some (e, (pos, phys))
          | _, _, _, _, _, _, _, _, _ => None
          end) (map_to_list (world s)).

(** [hourglass.get_time()] *)
Definition get_time : M Z := fun s => (Ok (time s), s).

Definition process_activations `{Constant} : M unit :=
  (* all entities with no position must be active *)
  let* s0 := get_state in
  for_each (not_position s0) (fun '(entity, _) =>
    let* active := has_component entity TIsActive in
    if negb active then add_component entity TIsActive tt else ret tt) >>
  (* check entities in range of player *)
  let* player := get_player in
  let* player_pos :=
    match player with
    | Some p => get_entitys_component p TPosition
    | None => raise (KeyError "None")
    end in
  let* s1 := get_state in
  for_each (query TPosition s1) (fun '(entity, pos) =>
    let* pp := attr_of player_pos "x" in
    let distance_x := Z.abs (x pp - x pos) in
    let distance_y := Z.abs (y pp - y pos) in
    if Z.max distance_x distance_y <? MAX_ACTIVATION_DISTANCE then
      (* they're close, now check they arent already active *)
      let* active := has_component entity TIsActive in
      if negb active then
        add_component entity TIsActive tt >>
        (* update tracked to current time *)
        let* has_tracked := has_component entity TTracked in
        if has_tracked then
          let* tracked := get_entitys_component entity TTracked in
          let* now := get_time in
          let* _ := attr_of tracked "time_spent" in
          store_component entity TTracked (mkTracked (now + 1))
        else ret tt
      else ret tt
    else
      (* not close enough, remove active *)
      let* active := has_component entity TIsActive in
      if active then snecs_remove_component entity TIsActive else ret tt).

(** The transparency layer that [process_fov] hands to [compute_fov] for the
    viewer [entity]: the body of the outer loop up to the FOV computation. *)
Definition updated_block_sight_map (entity : EntityID) (physicality : Physicality)
    (others : list (EntityID * (Position * Physicality))) (block_sight_map : Array2D)
  : M Array2D :=
  fold_m others (fun updated '(other_entity, (other_pos, other_physicality)) =>
    (* dont check against self *)
    if Nat.eqb entity other_entity then ret updated
    (* is viewing_entity taller and therefore their sight isnt blocked? *)
    else if height physicality >? height other_physicality then ret updated
    (* set all positions to blocking *)
    else fold_m (coordinates other_pos) (fun updated '(x, y) => array_set updated x y false)
           updated)
    block_sight_map.

Definition process_fov `{Tcod} : M unit :=
  let* s0 := get_state in
  let block_sight_map := block_sight_map s0 in
  for_each (active_actors s0) (fun '(entity, (pos, physicality)) =>
    (* get all entities blocking sight *)
    let* s1 := get_state in
    let* updated :=
      updated_block_sight_map entity physicality (active_and_position_and_physicality s1)
        block_sight_map in
    (* update entities fov map *)
    let* sight := get_entitys_component entity TSight in
    let* sg := attr_of sight "sight_range" in
    store_component entity TFOV
      (mkFOV (compute_fov updated (x pos, y pos) (sight_range sg)))).

End system.

(** ** skills.py *)

Module Tile.
Record t := mk { x : Z; y : Z }.
End Tile.

Inductive ShapeType := TARGET | SQUARE | CIRCLE | CROSS.
Inductive TargetTagType := OTHER_ENTITY | SELF.
Inductive PrimaryStatType := VIGOUR | CLOUT | SKULLDUGGERY | BUSTLE | EXACTITUDE.
Inductive DamageTypeType := MUNDANE.
Inductive DirectionType :=
| UP_LEFT | UP | UP_RIGHT | LEFT | CENTRE | RIGHT | DOWN_LEFT | DOWN | DOWN_RIGHT.

(** Effect objects are shared by reference: a follow-up list names other effect
    objects, and nothing prevents two effects from naming each other. *)
Definition EffectRef := nat.

Inductive EffectPayload : Type :=
| DamageEffectData (damage : Z) (damage_type : DamageTypeType)
    (mod_amount : Q) (mod_stat : PrimaryStatType)
| MoveActorEffectData (move_direction : DirectionType) (move_amount : Z)
    (move_target : EntityID) (allow_bump_attack : bool) (move_time_cost : Z).

(** [EffectData] and its subclasses: the keyword arguments that
    [create_effects] passes, and the two follow-up lists, empty by default. *)
Record EffectData := mkEffectData {
  originator : EntityID;
  creators_name : string;
  accuracy : Z;
  stat_to_target : PrimaryStatType;
  shape : ShapeType;
  shape_size : Z;
  required_tags : list TargetTagType;
  payload : EffectPayload;
  success_effects : list EffectRef;
  fail_effects : list EffectRef
}.

(** The collaborators of the activation loops: [utility.get_coords_from_shape],
    [world.get_tiles], [act.process_effect], the two base constants, and the
    object store that resolves a reference held in a follow-up list. *)
Class Act := {
  BASE_ACCURACY : Z;
  BASE_DAMAGE : Z;
  get_coords_from_shape : ShapeType -> Z -> list (Z * Z);
  get_tiles : Z -> Z -> list (Z * Z) -> M (list Tile.t);
  process_effect : EffectData -> list Tile.t -> EntityID -> M bool;
  deref : EffectRef -> EffectData
}.

(** Truthiness of a Python list. *)
Definition truthy {A} (l : list A) : bool :=
  match l with [] => false | _ => true end.

(** [l.pop()]: remove and return the last item. *)
Definition list_pop {A} (l : list A) : M (A * list A) :=
  match reverse l with
  | a :: r => ret (a, reverse r)
  | [] => raise (IndexError "pop from empty list")
  end.

(** [while effects: body]: [body] pops and may append.  The loop has no bound
    of its own, so the embedding counts iterations with [fuel]; [None] means the
    loop was still running when the fuel ran out. *)
Fixpoint while_effects {I} (fuel : nat) (body : list I -> M (list I)) (effects : list I)
    (s : State) : option (Outcome unit * State) :=
  match effects with
  | [] => Some (Ok tt, s)
  | _ :: _ =>
      match fuel with
      | O => None
      | S fuel' =>
          match body effects s with
          | (Ok effects', s') => while_effects fuel' body effects' s'
          | (Raise e, s') => Some (Raise e, s')
          end
      end
  end.

Module skills.

Definition _process_result (result : bool) (effect : EffectData) : list EffectRef :=
  if result && truthy (success_effects effect) then success_effects effect
  else if negb result && truthy (fail_effects effect) then fail_effects effect
  else [].

Section BaseSkill.
Context `{Act}.
Variable entity : EntityID.        (* self.entity *)
Variable name : string.            (* self.name *)

(** *** BasicAttack *)

Definition BasicAttack_create_effects : list EffectData :=
  [ mkEffectData entity name (BASE_ACCURACY + 5) VIGOUR TARGET 1 [OTHER_ENTITY]
      (DamageEffectData (BASE_DAMAGE + 20) MUNDANE (1 # 10) CLOUT) [] [] ].

(** [BasicAttack.activate] appends the follow-up list itself, so the work list
    holds effects and lists of effects. *)
Definition BasicAttack_body (target_tiles : list Tile.t)
    (effects : list (EffectData + list EffectRef)) : M (list (EffectData + list EffectRef)) :=
  let* (effect, effects) := list_pop effects in
  fold_m target_tiles (fun effects tile =>
    let* e :=
      match effect with
      | inl e => ret e
      | inr _ => raise (AttributeError "'list' object has no attribute 'shape'")
      end in
    let coords := get_coords_from_shape (shape e) (shape_size e) in
    let* effected_tiles := get_tiles (Tile.x tile) (Tile.y tile) coords in
    let* result := process_effect e effected_tiles entity in
    let result_effect := _process_result result e in
    if truthy result_effect then ret (effects ++ [inr result_effect]) else ret effects)
    effects.

Definition BasicAttack_activate (fuel : nat) (target_tiles : list Tile.t) (s : State)
  : option (Outcome unit * State) :=
  while_effects fuel (BasicAttack_body target_tiles) (inl <$> BasicAttack_create_effects) s.

(** *** Lunge *)

Definition Lunge_create_effects : list EffectData :=
  let damage_effect :=
    mkEffectData entity name (BASE_ACCURACY + 5) VIGOUR TARGET 1 [OTHER_ENTITY]
      (DamageEffectData (BASE_DAMAGE + 20) MUNDANE (1 # 10) CLOUT) [] [] in
  let move_effect :=
    mkEffectData entity name (BASE_ACCURACY + 5) VIGOUR TARGET 1 [SELF]
      (MoveActorEffectData DOWN 1 entity false 0) [] [] in
  [move_effect; damage_effect].

Definition Lunge_body (target_tiles : list Tile.t) (effects : list EffectData)
  : M (list EffectData) :=
  let* (effect, effects) := list_pop effects in
  fold_m target_tiles (fun effects tile =>
    let coords := get_coords_from_shape (shape effect) (shape_size effect) in
    let* effected_tiles := get_tiles (Tile.x tile) (Tile.y tile) coords in
    let* result := process_effect effect effected_tiles entity in
    let result_effects := _process_result result effect in
    (* if we have any success or fail actions add them to the list to activate *)
    if truthy result_effects
    then ret (foldl (fun effects result_effect => effects ++ [deref result_effect])
                effects result_effects)
    else ret effects)
    effects.

(** The loop of [Lunge.activate], started from any work list. *)
Definition Lunge_loop (fuel : nat) (target_tiles : list Tile.t) (effects : list EffectData)
    (s : State) : option (Outcome unit * State) :=
  while_effects fuel (Lunge_body target_tiles) effects s.

Definition Lunge_activate (fuel : nat) (target_tiles : list Tile.t) (s : State)
  : option (Outcome unit * State) :=
  Lunge_loop fuel target_tiles Lunge_create_effects s.

End BaseSkill.
End skills.

(** ** entity_handler.py *)

Inductive ResourceType := STAMINA | HEALTH.

Record SkillData := mkSkillData {
  resource_type : option ResourceType;
  resource_cost : Z;
  time_cost : Z
}.

(** [library.get_skill_data] *)
Class Library := { get_skill_data : string -> SkillData }.

(** The [skill] module used by [process_skill]. *)
Class Skill := {
  can_afford_cost : EntityID -> ResourceType -> Z -> M bool;
  pay_resource_cost : EntityID -> ResourceType -> Z -> M unit;
  use : EntityID -> string -> Z * Z -> Z * Z -> M unit
}.

(** The [chrono] module: the queue and the turn holder are in the state; the
    rebuild is the collaborator's. *)
Class Chrono := { build_new_turn_queue : M unit }.

(** The Python values compared with [==] in the handlers. *)
Inductive PyObj : Type :=
| PyModule (qualified_name : string)
| PyEntity (e : EntityID)
| PyNone.

Definition py_eq (a b : PyObj) : bool :=
  match a, b with
  | PyModule n, PyModule m => String.eqb n m
  | PyEntity e1, PyEntity e2 => Nat.eqb e1 e2
  | PyNone, PyNone => true
  | _, _ => false
  end.

Definition py_optional (o : option EntityID) : PyObj :=
  match o with Some e => PyEntity e | None => PyNone end.

Module entity_handler.

(** [from scripts.engine import world, chrono, entity, state, skill, debug]:
    inside this file the name [entity] is bound to a module. *)
Definition entity : PyObj := PyModule "scripts.engine.entity".

Definition get_turn_queue : M (gmap EntityID Z) := fun s => (Ok (turn_queue s), s).
Definition get_turn_holder : M (option EntityID) := fun s => (Ok (turn_holder s), s).

Section EntityHandler.
Context {library : Library} {skill : Skill} {chrono : Chrono}.

Definition process_skill (ent : EntityID) (skill_name : string) (start_pos direction : Z * Z)
  : M unit :=
  let skill_data := get_skill_data skill_name in
  (* check it can be afforded *)
  match resource_type skill_data with
  | Some rt =>
      let* affordable := can_afford_cost ent rt (resource_cost skill_data) in
      if affordable then
        pay_resource_cost ent rt (resource_cost skill_data) >>
        (* use skill *)
        use ent skill_name start_pos direction >>
        (* end the turn if the entity isnt a god *)
        let* god := has_component ent TIsGod in
        if negb god then publish (EndTurnEvent ent (time_cost skill_data)) else ret tt
      else
        (* is it the player that's can't afford it? *)
        let* player := existence.get_player in
        if py_eq (PyEntity ent) (py_optional player) then
          publish (MessageEvent LOG "You cannot afford to do that.")
        else
          let* name := existence.get_name ent in
          logging (LogWarning (name +:+ " tried to use " +:+ skill_name
                               +:+ ", which they can`t afford"))
  | None => ret tt
  end.

Definition process_die (dying_entity : EntityID) : M unit :=
  let ent := dying_entity in
  let* turn_queue := get_turn_queue in
  (* remove from turn queue *)
  (if bool_decide (is_Some (turn_queue !! ent))
   then modify (set_turn_queue (delete ent)) else ret tt) >>
  (* if turn holder and not player create new queue *)
  let* holder := get_turn_holder in
  (if py_eq entity (py_optional holder) then
     let* player := existence.get_player in
     if negb (py_eq entity (py_optional player)) then build_new_turn_queue else ret tt
   else ret tt) >>
  (* delete from world *)
  existence.delete ent.

Definition process_end_turn (ent : EntityID) (time_spent : Z) : M unit :=
  existence.spend_time ent time_spent.

End EntityHandler.
End entity_handler.

(** ** Reference points for the effect loops *)

(** [follow_up e f]: effect [f] is listed as a success or fail follow-up of
    effect [e]. *)
Definition follow_up `{Act} (e f : EffectRef) : Prop :=
  f ∈ success_effects (deref e) ∨ f ∈ fail_effects (deref e).

(** The body of the loop over the tiles in [Lunge.activate]. *)
Definition Lunge_tile_step `{Act} (entity : EntityID) (effect : EffectData)
    (effects : list EffectData) (tile : Tile.t) : M (list EffectData) :=
  let coords := get_coords_from_shape (shape effect) (shape_size effect) in
  let* effected_tiles := get_tiles (Tile.x tile) (Tile.y tile) coords in
  let* result := process_effect effect effected_tiles entity in
  let result_effects := skills._process_result result effect in
  if truthy result_effects
  then ret (foldl (fun effects result_effect => effects ++ [deref result_effect])
              effects result_effects)
  else ret effects.

Definition appended `{Act} (effect : EffectData) (effects : list EffectData)
    (res : Outcome (list EffectRef) * State) : Outcome (list EffectData) * State :=
  match res with
  | (Ok rs, s') => (Ok (effects ++ (deref <$> rs)), s')
  | (Raise e, s') => (Raise e, s')
  end.

Definition only_follow_ups (effect : EffectData) (res : Outcome (list EffectRef) * State)
  : Prop :=
  match res with
  | (Ok rs, _) => Forall (fun r => r ∈ success_effects effect ∨ r ∈ fail_effects effect) rs
  | (Raise _, _) => True
  end.

(** The loop of [Lunge.activate] comes to an end from the work list [effects],
    normally or with an exception, in every state. *)
Definition terminates `{Act} (entity : EntityID) (target_tiles : list Tile.t)
    (effects : list EffectData) : Prop :=
  forall s, exists fuel r, skills.Lunge_loop entity fuel target_tiles effects s = Some r.

(** The body of the loop over the tiles in [BasicAttack.activate], for the item
    [effect] popped from the work list. *)
Definition BasicAttack_tile_step `{Act} (entity : EntityID)
    (effect : EffectData + list EffectRef) (effects : list (EffectData + list EffectRef))
    (tile : Tile.t) : M (list (EffectData + list EffectRef)) :=
  let* e :=
    match effect with
    | inl e => ret e
    | inr _ => raise (AttributeError "'list' object has no attribute 'shape'")
    end in
  let coords := get_coords_from_shape (shape e) (shape_size e) in
  let* effected_tiles := get_tiles (Tile.x tile) (Tile.y tile) coords in
  let* result := process_effect e effected_tiles entity in
  let result_effect := skills._process_result result e in
  if truthy result_effect then ret (effects ++ [inr result_effect]) else ret effects.

(** The order the specification asks for, first queued first processed: the
    loop of [Lunge.activate] with the work list read from the front. *)
Definition list_pop_front {A} (l : list A) : M (A * list A) :=
  match l with
  | a :: r => ret (a, r)
  | [] => raise (IndexError "pop from empty list")
  end.

Definition fifo_body `{Act} (entity : EntityID) (target_tiles : list Tile.t)
    (effects : list EffectData) : M (list EffectData) :=
  let* (effect, effects) := list_pop_front effects in
  fold_m target_tiles (fun effects tile =>
    let coords := get_coords_from_shape (shape effect) (shape_size effect) in
    let* effected_tiles := get_tiles (Tile.x tile) (Tile.y tile) coords in
    let* result := process_effect effect effected_tiles entity in
    ret (effects ++ (deref <$> skills._process_result result effect)))
    effects.

Definition fifo_loop `{Act} (entity : EntityID) (fuel : nat) (target_tiles : list Tile.t)
    (effects : list EffectData) (s : State) : option (Outcome unit * State) :=
  while_effects fuel (fifo_body entity target_tiles) effects s.

(** An observer for the order of application: every effect succeeds, and each
    application leaves the creator and the kind of the applied effect in the
    log. *)
Definition effect_kind (e : EffectData) : string :=
  creators_name e +:+
  match payload e with
  | DamageEffectData _ _ _ _ => " damage"
  | MoveActorEffectData _ _ _ _ _ => " move"
  end.

Definition recording_act (table : EffectRef -> EffectData) : Act :=
  {| BASE_ACCURACY := 100;
     BASE_DAMAGE := 20;
     get_coords_from_shape := fun _ _ => [(0, 0)];
     get_tiles := fun x y _ => ret [Tile.mk x y];
     process_effect := fun e _ _ => logging (LogDebug (effect_kind e)) >> ret true;
     deref := table |}.

Definition plain_effect (p : EffectPayload) (on_success on_fail : list EffectRef) : EffectData :=
  mkEffectData 1%nat "lunge" 0 VIGOUR TARGET 1 [] p on_success on_fail.

Definition no_follow_ups : EffectRef -> EffectData :=
  fun _ => plain_effect (DamageEffectData 0 MUNDANE 0 CLOUT) [] [].

(** Two effects that name each other as success follow-up. *)
Definition two_cycle : EffectRef -> EffectData :=
  fun r => match r with
           | O => plain_effect (DamageEffectData 0 MUNDANE 0 CLOUT) [1%nat] []
           | _ => plain_effect (MoveActorEffectData DOWN 1 1%nat false 0) [0%nat] []
           end.

(** One effect with two follow-ups that have none of their own. *)
Definition fan_out : EffectRef -> EffectData :=
  fun r => match r with
           | O => plain_effect (DamageEffectData 0 MUNDANE 0 CLOUT) [1%nat; 2%nat] []
           | _ => plain_effect (MoveActorEffectData DOWN 1 1%nat false 0) [] []
           end.

(** A table with one effect, used as a follow-up. *)
Definition one_follow_up : EffectRef -> EffectData :=
  fun _ => mkEffectData 1%nat "follow-up" 0 VIGOUR TARGET 1 []
             (DamageEffectData 0 MUNDANE 0 CLOUT) [] [].

Definition first_effect : EffectData :=
  mkEffectData 1%nat "first" 0 VIGOUR TARGET 1 [] (DamageEffectData 0 MUNDANE 0 CLOUT) [] [].

Definition second_effect : EffectData :=
  mkEffectData 1%nat "second" 0 VIGOUR TARGET 1 [] (DamageEffectData 0 MUNDANE 0 CLOUT)
    [0%nat] [].

(** The log of a finished run. *)
Definition log_of (run : option (Outcome unit * State)) : option (list LogRecord) :=
  match run with
  | Some (_, s) => Some (log s)
  | None => None
  end.

Definition empty_array : Array2D := mkArray2D 0 0 (fun _ _ => true).

Definition initial_state : State :=
  mkState ∅ ∅ [] [] 0 ∅ None empty_array.


(** ** Reference points for the entity store and the activation pass *)

(** Everything but the world is the same in the two states. *)
Definition same_but_world (s s' : State) : Prop :=
  deletion_schedule s' = deletion_schedule s /\ log s' = log s /\
  published s' = published s /\ time s' = time s /\
  turn_queue s' = turn_queue s /\ turn_holder s' = turn_holder s /\
  block_sight_map s' = block_sight_map s.

Definition chebyshev (a b : Position) : Z :=
  Z.max (Z.abs (x a - x b)) (Z.abs (y a - y b)).

(** What the activation pass does to one entity, read off the two loops of
    [process_activations]: [player_pos] is the position of the player and [now]
    the global time. *)
Definition activation_of `{Constant} (player_pos : Position) (now : Z) (c : Components)
  : Components :=
  match c_position c with
  | None =>
      match c_is_active c with
      | Some _ => c
      | None => comp_set TIsActive (Some tt) c
      end
  | Some pos =>
      if chebyshev player_pos pos <? MAX_ACTIVATION_DISTANCE then
        match c_is_active c with
        | Some _ => c
        | None =>
            let c1 := comp_set TIsActive (Some tt) c in
            match c_tracked c with
            | Some _ => comp_set TTracked (Some (mkTracked (now + 1))) c1
            | None => c1
            end
        end
      else
        match c_is_active c with
        | Some _ => comp_set TIsActive None c
        | None => c
        end
  end.


(** [p] is the one entity that holds IsPlayer, and it has the position
    [player_pos]. *)
Definition player_at (s : State) (p : EntityID) (player_pos : Position) : Prop :=
  (exists c, world s !! p = Some c /\ c_is_player c = Some tt /\ c_position c = Some player_pos) /\
  (forall e c, world s !! e = Some c -> is_Some (c_is_player c) -> e = p).

(** ** Sample worlds *)

Definition the_player : Components :=
  mkComponents (Some (mkPosition 0 0 [(0, 0)])) (Some (mkResources 10 5)) (Some (mkTracked 10))
    (Some (mkIdentity "player" "")) (Some (mkPhysicality 2)) (Some (mkSight 5))
    (Some (mkFOV empty_array)) None (Some tt) (Some tt) None (Some tt) (Some tt) (Some tt).

(** A dormant actor next to the player whose tracked time is ahead of the
    global time. *)
Definition a_rat : Components :=
  mkComponents (Some (mkPosition 1 1 [(1, 1)])) (Some (mkResources 4 4)) (Some (mkTracked 100))
    (Some (mkIdentity "rat" "")) (Some (mkPhysicality 1)) (Some (mkSight 3))
    (Some (mkFOV empty_array)) (Some (mkBehaviour 0%nat)) None None None
    (Some tt) (Some tt) (Some tt).

(** An entity with an identity and nothing else. *)
Definition a_stone : Components :=
  mkComponents None None None (Some (mkIdentity "stone" "")) None None None None None None None
    None None None.

Definition sample_world : gmap EntityID Components :=
  {[ 1%nat := the_player; 2%nat := a_rat; 3%nat := a_stone ]}.

Definition sample_state : State :=
  mkState sample_world ∅ [] [] 10 {[ 1%nat := 10; 2%nat := 100 ]} (Some 2%nat) empty_array.

Definition radius_4 : Constant := {| MAX_ACTIVATION_DISTANCE := 4 |}.

(** ** Reference points for the field of view *)







(** ** Reference points for the event handlers *)

(** Every skill costs 5 stamina and 30 time. *)
Definition flat_library : Library :=
  {| get_skill_data := fun _ => mkSkillData (Some STAMINA) 5 30 |}.

(** A [skill] module in which nobody can afford anything; paying and using
    would show up as published events. *)
Definition unaffordable : Skill :=
  {| can_afford_cost := fun _ _ _ => ret false;
     pay_resource_cost := fun ent _ _ => publish (MessageEvent LOG "paid");
     use := fun ent _ _ _ => publish (MessageEvent LOG "used") |}.

(** A [chrono] module whose rebuild leaves a mark in the log. *)
Definition marking_chrono : Chrono :=
  {| build_new_turn_queue := logging (LogInfo "turn queue rebuilt") |}.

(** [sample_state] after the death of the rat has been processed. *)
Definition after_rat_died : State :=
  mkState sample_world {[ 2%nat ]}
    [LogInfo "'rat' (2) added to stack to be deleted on next frame."]
    [] 10 {[ 1%nat := 10 ]} (Some 2%nat) empty_array.

(** ** Further embedded code: existence.py *)

Module existence_more.
Import existence.

(** [get_entity(unique_component)]: the first entity found with the component;
    a warning when there are several or none. *)
Definition get_entity {A} (unique_component : ComponentType A) : M (option EntityID) :=
  let* s := get_state in
  let entities := (query unique_component s).*1 in
  let num_entities := length entities in
  if (1 <? num_entities)%nat then
    logging (LogWarning ("Tried to get an entity with " +:+ component_name unique_component
                         +:+ " component but found " +:+ pretty num_entities
                         +:+ " entities with that component.")) >>
    ret (head entities)
  else if (num_entities =? 0)%nat then
    logging (LogWarning ("Tried to get an entity with " +:+ component_name unique_component
                         +:+ " component but found none.")) >>
    ret None
  else ret (head entities).

(** [get_player_fov()]: [if player:] is false for [None] and for the id 0. *)
Definition get_player_fov : M (option Array2D) :=
  let* player := get_player in
  match player with
  | Some p =>
      if negb (Nat.eqb p 0) then
        let* fov_c := get_entitys_component p TFOV in
        match fov_c with
        | Some f => ret (Some (map f))
        | None => ret None
        end
      else ret None
  | None => ret None
  end.

End existence_more.

(** ** Further embedded code: skills.py *)

(** The loop of [BasicAttack.activate], started from any work list. *)
Definition BasicAttack_loop `{Act} (entity : EntityID) (fuel : nat) (target_tiles : list Tile.t)
    (effects : list (EffectData + list EffectRef)) (s : State)
  : option (Outcome unit * State) :=
  while_effects fuel (skills.BasicAttack_body entity target_tiles) effects s.

(** One effect applied to every target tile, the result of each application
    dropped: what an iteration of the loops does for an effect without
    follow-ups. *)
Definition apply_to_tiles `{Act} (entity : EntityID) (target_tiles : list Tile.t)
    (effect : EffectData) : M unit :=
  for_each target_tiles (fun tile =>
    let coords := get_coords_from_shape (shape effect) (shape_size effect) in
    let* effected_tiles := get_tiles (Tile.x tile) (Tile.y tile) coords in
    let* _ := process_effect effect effected_tiles entity in
    ret tt).

Definition no_follow_up (effect : EffectData) : Prop :=
  success_effects effect = [] /\ fail_effects effect = [].

(** The result of a computation, as the loops report it. *)
Definition finished {A} (r : Outcome A * State) : option (Outcome unit * State) :=
  match r with
  | (Ok _, s) => Some (Ok tt, s)
  | (Raise e, s) => Some (Raise e, s)
  end.

(** ** Further sample collaborators *)

(** A library whose skills carry no resource type. *)
Definition free_library : Library :=
  {| get_skill_data := fun _ => mkSkillData None 0 30 |}.

(** A [skill] module in which everybody can afford everything; paying and
    using show up as published events. *)
Definition affordable : Skill :=
  {| can_afford_cost := fun _ _ _ => ret true;
     pay_resource_cost := fun ent _ _ => publish (MessageEvent LOG "paid");
     use := fun ent _ _ _ => publish (MessageEvent LOG "used") |}.

(** ** Further embedded code: queries over several components *)

(** A component instance of any kind, as it sits in the tuple a query
    yields. *)
Inductive ComponentValue : Type :=
| VPosition (v : Position)
| VResources (v : Resources)
| VTracked (v : Tracked)
| VIdentity (v : Identity)
| VPhysicality (v : Physicality)
| VSight (v : Sight)
| VFOV (v : FOV)
| VBehaviour (v : Behaviour)
| VIsActive
| VIsPlayer
| VIsGod.

Definition component_value {A} (t : ComponentType A) : A -> ComponentValue :=
  match t in ComponentType T return T -> ComponentValue with
  | TPosition => VPosition
  | TResources => VResources
  | TTracked => VTracked
  | TIdentity => VIdentity
  | TPhysicality => VPhysicality
  | TSight => VSight
  | TFOV => VFOV
  | TBehaviour => VBehaviour
  | TIsActive => fun _ => VIsActive
  | TIsPlayer => fun _ => VIsPlayer
  | TIsGod => fun _ => VIsGod
  end.

(** A component class of any instance type, as it sits in a list of classes. *)
Definition AnyComponentType : Type := { A : Type & ComponentType A }.

Definition any_type {A : Type} (t : ComponentType A) : AnyComponentType := existT A t.

Definition value_of (c : Components) (t : AnyComponentType) : option ComponentValue :=
  component_value (projT2 t) <$> comp_get (projT2 t) c.

(** [Query(components)]: the entities that hold every listed component, each
    with the tuple of its instances in the order of the list. *)
Definition get_components (components : list AnyComponentType) (s : State)
  : list (EntityID * list ComponentValue) :=
  omap (fun '(e, c) => (fun values => (e, values)) <$> mapM (value_of c) components)
    (map_to_list (world s)).

Module existence_area.

(** [get_entities_and_components_in_area(area, components)]: [None] entries of
    [components] are dropped, Position is put in front, and the dict maps each
    entity standing on a tile of the area to its tuple [(pos, *rest)]. *)
Definition get_entities_and_components_in_area (area : list Tile.t)
    (components : list (option AnyComponentType))
  : M (gmap EntityID (list ComponentValue)) :=
  let _components := omap id (Some (any_type TPosition) :: components) in
  let* s := get_state in
  fold_m (get_components _components s) (fun entities '(entity, values) =>
    match values with
    | VPosition pos :: rest =>
        fold_m area (fun entities tile =>
          if (Tile.x tile =? x pos) && (Tile.y tile =? y pos)
          then ret (<[entity := VPosition pos :: rest]> entities)
          else ret entities) entities
    | _ :: _ => raise (AttributeError "object has no attribute 'x'")
    | [] => raise (ValueError "not enough values to unpack")
    end) ∅.

End existence_area.

(** An entity at [pos] stands on a tile of the area. *)
Definition on_area (area : list Tile.t) (pos : Position) : Prop :=
  exists tile, tile ∈ area /\ Tile.x tile = x pos /\ Tile.y tile = y pos.

(** ** Further embedded code: the first [Skill] class of skills.py *)

Module TargetingMethod.
Inductive t := TARGET | AUTO.
End TargetingMethod.

(** [DamageEffect(origin, victim, ...)] as [build_effects] constructs it. *)
Record DamageEffect := mkDamageEffect {
  origin : EntityID;
  victim : EntityID;
  de_stat_to_target : PrimaryStatType;
  de_accuracy : Z;
  de_damage : Z;
  de_damage_type : DamageTypeType;
  de_mod_stat : PrimaryStatType;
  de_mod_amount : Q;
  de_success_effects : list EffectRef;
  failure_effects : list EffectRef
}.

Module skill_class.

(** An instance of [Skill]: one use of a skill by [user] on [target_tile]. *)
Record t := mk {
  cooldown : Z;
  user : EntityID;
  target_tile : Tile.t;
  description : string;
  icon_path : string;
  required_tags : list TargetTagType;
  resource_type : ResourceType;
  resource_cost : Z;
  time_cost : Z;
  max_cooldown : Z;
  targeting_method : TargetingMethod.t;
  target_directions : list DirectionType;
  shape : ShapeType;
  shape_size : Z
}.

(** [existence.get_components([Position, Resources, HasCombatStats])], with the
    position of each entity found. *)
Definition combatants (s : State) : list (EntityID * Position) :=
  omap (fun '(e, c) =>
          match c_position c, c_resources c, c_combat_stats c with
          | Some position, Some _, Some _ => Some (e, position)
          | _, _, _ => None
          end) (map_to_list (world s)).

Definition get_affected_entities `{Act} (self : t) : M (list EntityID) :=
  let target_x := Tile.x (target_tile self) in
  let target_y := Tile.y (target_tile self) in
  (* get affected tiles *)
  let coords := get_coords_from_shape (shape self) (shape_size self) in
  let affected_positions := (fun coord => (coord.1 + target_x, coord.2 + target_y)) <$> coords in
  (* get relevant entities in target area *)
  let* s := get_state in
  ret (omap (fun '(entity, position) =>
               if bool_decide ((x position, y position) ∈ affected_positions)
               then Some entity else None) (combatants s)).

(** [apply]: the pairs that the generator yields, in order; [build_effects] is
    the method of the subclass. *)
Definition apply `{Act} (build_effects : t -> EntityID -> list DamageEffect) (self : t)
  : M (list (EntityID * list DamageEffect)) :=
  let* affected := get_affected_entities self in
  ret ((fun entity => (entity, build_effects self entity)) <$> affected).

(** [BasicAttack(user, target_tile)] of the first [BasicAttack] class. *)
Definition BasicAttack (user : EntityID) (target_tile : Tile.t) : t :=
  mk 0 user target_tile "this is the basic attack."
    "assets/skills/placeholder/basic_attack.png" [OTHER_ENTITY] STAMINA 5 30 1
    TargetingMethod.TARGET
    [UP_LEFT; UP; UP_RIGHT; LEFT; CENTRE; RIGHT; DOWN_LEFT; DOWN; DOWN_RIGHT]
    TARGET 1.

Definition BasicAttack_build_effects `{Act} (self : t) (entity : EntityID)
  : list DamageEffect :=
  [ mkDamageEffect (user self) entity VIGOUR BASE_ACCURACY BASE_DAMAGE MUNDANE CLOUT (1 # 10)
      [] [] ].

End skill_class.

(** ** Further embedded code: system.py, the immunity durations *)

(** [INFINITE] of the constants module. *)
Class Durations := { INFINITE : Z }.

(** [d[key]] on a dict: a missing key is a [KeyError]. *)
Definition dict_get (d : gmap string Z) (key : string) : M Z :=
  match d !! key with
  | Some v => ret v
  | None => raise (KeyError key)
  end.

Module system_time.

(** The body of the loop of [reduce_immunity_durations] for one entity:
    [active] is the dict [immunities.active], and the loop runs over a copy of
    it. *)
Definition reduce_immunities `{Durations} (entity : EntityID) (active : gmap string Z)
  : M (gmap string Z) :=
  let _active := active in
  fold_m (map_to_list _active) (fun active '(immunity_name, duration) =>
    let* (active, duration) :=
      (if negb (duration =? INFINITE) then
         (* reduce duration if not infinite *)
         let* current := dict_get active immunity_name in
         ret (<[immunity_name := current - 1]> active, duration - 1)
       else ret (active, duration)) in
    (* handle expiry *)
    if duration <=? 0 then
      let* _ := dict_get active immunity_name in
      let active := delete immunity_name active in
      let* name := existence.get_name entity in
      logging (LogDebug ("Removed " +:+ immunity_name +:+ " from '" +:+ name
                         +:+ "'s list of immunities.")) >>
      ret active
    else ret active) active.

(** [reduce_immunity_durations()]: [immunities] holds, for each entity of
    [query.immunities], the [active] dict of its Immunities component; the
    result is the same column after the pass. *)
Definition reduce_immunity_durations `{Durations} (immunities : gmap EntityID (gmap string Z))
  : M (gmap EntityID (gmap string Z)) :=
  fold_m (map_to_list immunities) (fun immunities '(entity, active) =>
    let* active' := reduce_immunities entity active in
    ret (<[entity := active']> immunities)) immunities.

End system_time.

(** Everything but the log is the same in the two states. *)
Definition same_but_log (s s' : State) : Prop :=
  world s' = world s /\ deletion_schedule s' = deletion_schedule s /\
  published s' = published s /\ time s' = time s /\
  turn_queue s' = turn_queue s /\ turn_holder s' = turn_holder s /\
  block_sight_map s' = block_sight_map s.

(** The two states differ at most in the log and in the FOV components. *)
Definition same_but_fov_and_log (s s' : State) : Prop :=
  deletion_schedule s' = deletion_schedule s /\
  published s' = published s /\ time s' = time s /\
  turn_queue s' = turn_queue s /\ turn_holder s' = turn_holder s /\
  block_sight_map s' = block_sight_map s /\
  forall e, comp_set TFOV None <$> world s' !! e = comp_set TFOV None <$> world s !! e.

(** A sample column of immunities and a sample value of [INFINITE]. *)
Definition infinite_999 : Durations := {| INFINITE := 999 |}.

Definition rat_immunities : gmap EntityID (gmap string Z) :=
  {[ 2%nat := {[ "poison" := 1; "fire" := 3; "fear" := 999 ]} ]}.

(** What one pass does to one duration: an infinite one is kept as it is, any
    other is reduced by one, and what is not positive afterwards is dropped. *)
Definition reduced_duration `{Durations} (duration : Z) : option Z :=
  let d := if duration =? INFINITE then duration else duration - 1 in
  if d <=? 0 then None else Some d.

Definition reduced_immunities `{Durations} (active : gmap string Z) : gmap string Z :=
  omap reduced_duration active.

(** ** Further embedded code: system.py, the light map and the visible tiles *)

(** numpy on two-dimensional boolean arrays.  Along an axis a length of 1 is
    stretched to the other operand's length; lengths that differ otherwise
    cannot be combined. *)
Definition broadcast_index (n i : Z) : Z := if n =? 1 then 0 else i.

Definition broadcast_length (n m : Z) : option Z :=
  if n =? m then Some n else if n =? 1 then Some m else if m =? 1 then Some n else None.

(** [a[:] = v] *)
Definition array_fill (a : Array2D) (v : bool) : Array2D :=
  mkArray2D (arr_width a) (arr_height a) (fun _ _ => v).

(** [a |= b], in place: [b] has to fit the shape of [a]. *)
Definition array_ior (a b : Array2D) : M Array2D :=
  if ((arr_width b =? arr_width a) || (arr_width b =? 1))
     && ((arr_height b =? arr_height a) || (arr_height b =? 1))
  then ret (mkArray2D (arr_width a) (arr_height a)
              (fun i j => arr_cell a i j
                          || arr_cell b (broadcast_index (arr_width b) i)
                               (broadcast_index (arr_height b) j)))
  else raise (ValueError "operands could not be broadcast together").

(** [a & b] *)
Definition array_and (a b : Array2D) : M Array2D :=
  match broadcast_length (arr_width a) (arr_width b),
        broadcast_length (arr_height a) (arr_height b) with
  | Some w, Some h =>
      ret (mkArray2D w h
             (fun i j => arr_cell a (broadcast_index (arr_width a) i)
                           (broadcast_index (arr_height a) j)
                         && arr_cell b (broadcast_index (arr_width b) i)
                              (broadcast_index (arr_height b) j)))
  | _, _ => raise (ValueError "operands could not be broadcast together")
  end.

(** [a[x, y]] *)
Definition array_get (a : Array2D) (x y : Z) : M bool :=
  match normalize_index (arr_width a) x, normalize_index (arr_height a) y with
  | Some i, Some j => ret (arr_cell a i j)
  | _, _ => raise (IndexError "index is out of bounds")
  end.

(** [l[i]] on a Python list. *)
Definition list_index {A} (l : list A) (i : Z) : M (nat * A) :=
  match normalize_index (Z.of_nat (length l)) i with
  | Some n =>
      match l !! Z.to_nat n with
      | Some a => ret (Z.to_nat n, a)
      | None => raise (IndexError "list index out of range")
      end
  | None => raise (IndexError "list index out of range")
  end.

Record LightSource := mkLightSource { radius : Z }.

(** A tile of the map: its place and whether the player sees it. *)
Record MapTile := mkMapTile { tile : Tile.t; is_visible : bool }.

Module GameMap.
(** The attributes of the game map that the two passes read and write. *)
Record t := mk {
  width : Z;
  height : Z;
  light_map : Array2D;
  tile_map : list (list MapTile)
}.
End GameMap.

(** [tile_map[x][y].is_visible = v] *)
Definition set_is_visible (tile_map : list (list MapTile)) (x y : Z) (v : bool)
  : M (list (list MapTile)) :=
  let* (i, row) := list_index tile_map x in
  let* (j, t) := list_index row y in
  ret (<[i := <[j := mkMapTile (tile t) v]> row]> tile_map).

Module system_vision.
Import existence.

(** [process_light_map()]: [sources] is what
    [query.active_and_light_source_and_position] yields, the transparency
    layer is that of the state, and the map is returned with its light map
    rewritten. *)
Definition process_light_map `{Tcod} (sources : list (EntityID * (LightSource * Position)))
    (game_map : GameMap.t) : M GameMap.t :=
  let light_map := GameMap.light_map game_map in
  (* create transparency layer *)
  let* s := get_state in
  let block_sight_map := block_sight_map s in
  (* reset light map *)
  let light_map := array_fill light_map false in
  let* light_map :=
    fold_m sources (fun light_map '(entity, (light_source, pos)) =>
      let radius := radius light_source in
      (* create fov for light source and add to light map *)
      let fov := compute_fov block_sight_map (x pos, y pos) radius in
      array_ior light_map fov) light_map in
  (* assign back post updates *)
  ret (GameMap.mk (GameMap.width game_map) (GameMap.height game_map) light_map
         (GameMap.tile_map game_map)).

(** [process_tile_visibility()] *)
Definition process_tile_visibility (game_map : GameMap.t) : M GameMap.t :=
  (* get player info *)
  let* player := get_player in
  let* fov :=
    match player with
    | Some p => get_entitys_component p TFOV
    | None => raise (KeyError "None")
    end in
  let* f := attr_of fov "map" in
  let fov_map := map f in
  (* get game map details *)
  let width := GameMap.width game_map in
  let height := GameMap.height game_map in
  let light_map := GameMap.light_map game_map in
  let tile_map := GameMap.tile_map game_map in
  (* set all tiles to not visible *)
  let* tile_map :=
    fold_m (seqZ 0 width) (fun tile_map x =>
      fold_m (seqZ 0 height) (fun tile_map y => set_is_visible tile_map x y false) tile_map)
      tile_map in
  (* combine maps *)
  let* visible_map := array_and fov_map light_map in
  (* loop all map *)
  let* tile_map :=
    fold_m (seqZ 0 width) (fun tile_map x =>
      fold_m (seqZ 0 height) (fun tile_map y =>
        let* v := array_get visible_map x y in
        set_is_visible tile_map x y v) tile_map)
      tile_map in
  ret (GameMap.mk width height light_map tile_map).

End system_vision.

(** The tile at [tile_map[x][y]], for indices that are not negative. *)
Definition tile_at (tile_map : list (list MapTile)) (x y : Z) : option MapTile :=
  row ← tile_map !! Z.to_nat x; row !! Z.to_nat y.

(** A light map and the arrays added to it have the shape [w] by [h]. *)
Definition has_shape (a : Array2D) (w h : Z) : Prop :=
  arr_width a = w /\ arr_height a = h.

(** A dark 3 by 2 map with its six tiles, a lamp, and a field-of-view
    computation that lights the origin tile only. *)
Definition small_map : GameMap.t :=
  GameMap.mk 3 2 (mkArray2D 3 2 (fun _ _ => true))
    [ [mkMapTile (Tile.mk 0 0) true; mkMapTile (Tile.mk 0 1) true];
      [mkMapTile (Tile.mk 1 0) true; mkMapTile (Tile.mk 1 1) true];
      [mkMapTile (Tile.mk 2 0) true; mkMapTile (Tile.mk 2 1) true] ].

Definition origin_only : Tcod :=
  {| compute_fov := fun _ origin _ =>
       mkArray2D 3 2 (fun i j => (i =? origin.1) && (j =? origin.2)) |}.

Definition a_lamp : EntityID * (LightSource * Position) :=
  (5%nat, (mkLightSource 2, mkPosition 1 1 [(1, 1)])).

(** A player whose FOV map has the shape of [small_map] and sees the first
    column. *)
Definition seeing_state : State :=
  mkState {[ 1%nat := comp_set TFOV (Some (mkFOV (mkArray2D 3 2 (fun i _ => i =? 0))))
                        the_player ]}
    ∅ [] [] 0 ∅ None (mkArray2D 3 2 (fun _ _ => true)).

(** What the visibility writes do to a tile map: where [f] gives a value the
    tile's [is_visible] is that value, elsewhere the tile is as it was.  Rows
    and tiles are taken to be distinct objects. *)
Definition seen (v : option bool) (t : MapTile) : MapTile :=
  mkMapTile (tile t) (default (is_visible t) v).

Definition repainted (f : Z -> Z -> option bool) (tile_map tile_map' : list (list MapTile))
  : Prop :=
  forall x y, 0 <= x -> 0 <= y -> tile_at tile_map' x y = seen (f x y) <$> tile_at tile_map x y.

(* ====================================================================== *)
(** * Theorems *)
(* ====================================================================== *)

(** ** The monad and the work-list loop *)

Lemma bind_ok {A B} (m : M A) (k : A -> M B) s a s' :
  m s = (Ok a, s') -> bind m k s = k a s'.
Proof. intros Hm. unfold bind. by rewrite Hm. Qed.

Lemma while_effects_nil {I} fuel (body : list I -> M (list I)) s :
  while_effects fuel body [] s = Some (Ok tt, s).
Proof. by destruct fuel. Qed.

Lemma while_effects_step {I} fuel (body : list I -> M (list I)) effects s :
  effects ≠ [] ->
  while_effects (S fuel) body effects s =
    match body effects s with
    | (Ok effects', s') => while_effects fuel body effects' s'
    | (Raise e, s') => Some (Raise e, s')
    end.
Proof. by destruct effects. Qed.

Lemma while_effects_mono {I} (body : list I -> M (list I)) fuel fuel' effects s r :
  while_effects fuel body effects s = Some r ->
  (fuel <= fuel')%nat ->
  while_effects fuel' body effects s = Some r.
Proof.
  revert fuel' effects s.
  induction fuel as [|fuel IH]; intros fuel' effects s Hrun Hle.
  - destruct effects; [|done]. by rewrite while_effects_nil.
  - destruct effects as [|i effects]; [by rewrite while_effects_nil|].
    destruct fuel' as [|fuel']; [lia|].
    simpl in *. destruct (body (i :: effects) s) as [[effects'|e] s']; [|done].
    apply IH; [done | lia].
Qed.

(** ** skills.py: the activation loops *)

Section ActivationLoop.
Context `{Act}.
Variable entity : EntityID.
Variable target_tiles : list Tile.t.

Lemma list_pop_app {A} (q1 q2 : list A) s :
  q2 ≠ [] ->
  list_pop (q1 ++ q2) s =
    match list_pop q2 s with
    | (Ok (a, r), s') => (Ok (a, q1 ++ r), s')
    | (Raise e, s') => (Raise e, s')
    end.
Proof.
  intros Hne. unfold list_pop. rewrite reverse_app.
  destruct (reverse q2) as [|a r] eqn:Hrev.
  - apply (f_equal reverse) in Hrev. rewrite reverse_involutive in Hrev. done.
  - simpl. unfold ret. by rewrite reverse_app, reverse_involutive.
Qed.

Lemma foldl_append_deref (effects : list EffectData) (rs : list EffectRef) :
  foldl (fun effects result_effect => effects ++ [deref result_effect]) effects rs
  = effects ++ (deref <$> rs).
Proof.
  revert effects. induction rs as [|r rs IH]; intros effects; simpl.
  - by rewrite app_nil_r.
  - rewrite IH. by rewrite <- app_assoc.
Qed.

Lemma _process_result_follow_ups result effect r :
  r ∈ skills._process_result result effect ->
  r ∈ success_effects effect ∨ r ∈ fail_effects effect.
Proof.
  unfold skills._process_result. intros Hr.
  destruct (result && truthy (success_effects effect)); [by left|].
  destruct (negb result && truthy (fail_effects effect)); [by right|].
  by apply elem_of_nil in Hr.
Qed.

(** What one tile appends for the popped [effect]: an exception, or follow-ups
    of [effect], whatever the work list holds. *)
Lemma Lunge_tile_step_appends effect tile s :
  exists res, (forall effects, Lunge_tile_step entity effect effects tile s
                               = appended effect effects res)
              /\ only_follow_ups effect res.
Proof.
  destruct (get_tiles (Tile.x tile) (Tile.y tile)
              (get_coords_from_shape (shape effect) (shape_size effect)) s)
    as [[effected|e] s1] eqn:Htiles.
  2:{ exists (Raise e, s1). split; [|done]. intros effects.
      unfold Lunge_tile_step, bind. by rewrite Htiles. }
  destruct (process_effect effect effected entity s1) as [[result|e] s2] eqn:Hproc.
  2:{ exists (Raise e, s2). split; [|done]. intros effects.
      unfold Lunge_tile_step, bind. by rewrite Htiles, Hproc. }
  exists (Ok (skills._process_result result effect), s2). split.
  - intros effects. unfold Lunge_tile_step, bind. rewrite Htiles, Hproc. simpl.
    destruct (skills._process_result result effect) as [|r0 rs0] eqn:Hres; simpl; unfold ret.
    + by rewrite app_nil_r.
    + rewrite foldl_append_deref. by rewrite <- app_assoc.
  - simpl. apply Forall_forall. intros r. apply _process_result_follow_ups.
Qed.

Lemma Lunge_tiles_appends tiles effect s :
  exists res, (forall effects, fold_m tiles (Lunge_tile_step entity effect) effects s
                               = appended effect effects res)
              /\ only_follow_ups effect res.
Proof.
  revert s. induction tiles as [|tile tiles IH]; intros s.
  - exists (Ok [], s). split; [|by apply Forall_nil].
    intros effects. simpl. unfold ret. by rewrite app_nil_r.
  - destruct (Lunge_tile_step_appends effect tile s) as [[[rs1|e] s1] [Hstep Hin1]].
    + destruct (IH s1) as [[[rs2|e] s2] [Hrest Hin2]].
      * exists (Ok (rs1 ++ rs2), s2). split; [|by apply Forall_app].
        intros effects. simpl. unfold bind. rewrite Hstep. simpl. rewrite Hrest. simpl.
        by rewrite fmap_app, app_assoc.
      * exists (Raise e, s2). split; [|done].
        intros effects. simpl. unfold bind. rewrite Hstep. simpl. by rewrite Hrest.
    + exists (Raise e, s1). split; [|done].
      intros effects. simpl. unfold bind. by rewrite Hstep.
Qed.

Lemma Lunge_body_eq effects s :
  skills.Lunge_body entity target_tiles effects s =
    match list_pop effects s with
    | (Ok (effect, rest), s') => fold_m target_tiles (Lunge_tile_step entity effect) rest s'
    | (Raise e, s') => (Raise e, s')
    end.
Proof.
  unfold skills.Lunge_body, bind.
  by destruct (list_pop effects s) as [[[effect rest]|e] s'].
Qed.

(** The work list is a stack: what lies below the top is not looked at. *)
Lemma Lunge_body_app q1 q2 s :
  q2 ≠ [] ->
  skills.Lunge_body entity target_tiles (q1 ++ q2) s =
    match skills.Lunge_body entity target_tiles q2 s with
    | (Ok q', s') => (Ok (q1 ++ q'), s')
    | (Raise e, s') => (Raise e, s')
    end.
Proof.
  intros Hne. rewrite !Lunge_body_eq, list_pop_app by done.
  destruct (list_pop q2 s) as [[[effect rest]|e] s0]; [|done].
  destruct (Lunge_tiles_appends target_tiles effect s0) as [[[rs|e] s1] [Hrun _]].
  - rewrite !Hrun. simpl. by rewrite app_assoc.
  - by rewrite !Hrun.
Qed.

Lemma Lunge_loop_app q1 fuel2 : forall q2 s r2,
  skills.Lunge_loop entity fuel2 target_tiles q2 s = Some r2 ->
  match r2 with
  | (Ok _, s2) =>
      forall fuel1 r1,
        skills.Lunge_loop entity fuel1 target_tiles q1 s2 = Some r1 ->
        skills.Lunge_loop entity (fuel2 + fuel1) target_tiles (q1 ++ q2) s = Some r1
  | (Raise e, s2) =>
      skills.Lunge_loop entity fuel2 target_tiles (q1 ++ q2) s = Some (Raise e, s2)
  end.
Proof.
  unfold skills.Lunge_loop.
  induction fuel2 as [|fuel2 IH]; intros q2 s r2 Hrun.
  - destruct q2; [|done]. simpl in Hrun. injection Hrun as <-.
    intros fuel1 r1 Hq1. rewrite app_nil_r. done.
  - destruct q2 as [|e2 q2].
    { simpl in Hrun. injection Hrun as <-. intros fuel1 r1 Hq1. rewrite app_nil_r.
      eapply while_effects_mono; [done | lia]. }
    assert (Hne : e2 :: q2 ≠ []) by done.
    assert (Hne' : q1 ++ e2 :: q2 ≠ []) by (by destruct q1).
    rewrite while_effects_step in Hrun by done.
    pose proof (Lunge_body_app q1 (e2 :: q2) s Hne) as Hbody.
    destruct (skills.Lunge_body entity target_tiles (e2 :: q2) s) as [[q'|e] s'] eqn:Hb.
    + specialize (IH _ _ _ Hrun). destruct r2 as [[[]|e] s2].
      * intros fuel1 r1 Hq1. specialize (IH fuel1 r1 Hq1).
        replace (S fuel2 + fuel1)%nat with (S (fuel2 + fuel1)) by lia.
        rewrite while_effects_step by done. by rewrite Hbody.
      * rewrite while_effects_step by done. by rewrite Hbody.
    + injection Hrun as <-.
      rewrite while_effects_step by done. by rewrite Hbody.
Qed.

Lemma terminates_app q1 q2 :
  terminates entity target_tiles q1 -> terminates entity target_tiles q2 ->
  terminates entity target_tiles (q1 ++ q2).
Proof.
  intros Hq1 Hq2 s. destruct (Hq2 s) as (fuel2 & [[[]|e] s2] & Hrun2).
  - destruct (Hq1 s2) as (fuel1 & r1 & Hrun1).
    exists (fuel2 + fuel1)%nat, r1.
    by apply (Lunge_loop_app q1 fuel2 q2 s _ Hrun2).
  - exists fuel2, (Raise e, s2). by apply (Lunge_loop_app q1 fuel2 q2 s _ Hrun2).
Qed.

Lemma terminates_each effects :
  Forall (fun e => terminates entity target_tiles [e]) effects ->
  terminates entity target_tiles effects.
Proof.
  induction 1 as [|e effects He _ IH].
  - intros s. exists 0%nat, (Ok tt, s). done.
  - by apply (terminates_app [e] effects).
Qed.

(** An effect is done with once each of its follow-ups is. *)
Lemma terminates_effect (effect : EffectData) :
  (forall r, r ∈ success_effects effect ∨ r ∈ fail_effects effect ->
             terminates entity target_tiles [deref r]) ->
  terminates entity target_tiles [effect].
Proof.
  intros Hfollow s.
  pose proof (Lunge_body_eq [effect] s) as Hbody. simpl in Hbody.
  destruct (Lunge_tiles_appends target_tiles effect s) as [[[rs|e] s1] [Hrun Hin]].
  - assert (Hrest : terminates entity target_tiles (deref <$> rs)).
    { apply terminates_each, Forall_fmap. simpl in Hin.
      eapply Forall_impl; [exact Hin|]. intros r Hr. by apply Hfollow. }
    destruct (Hrest s1) as (fuel & r & Hloop).
    exists (S fuel), r. unfold skills.Lunge_loop.
    rewrite while_effects_step by done. rewrite Hbody.
    unfold list_pop, ret. simpl. rewrite Hrun. simpl. exact Hloop.
  - exists 1%nat, (Raise e, s1). unfold skills.Lunge_loop.
    rewrite while_effects_step by done. rewrite Hbody.
    unfold list_pop, ret. simpl. by rewrite Hrun.
Qed.

Lemma terminates_sn r : sn follow_up r -> terminates entity target_tiles [deref r].
Proof.
  induction 1 as [r _ IH]. apply terminates_effect.
  intros r' Hr'. apply IH. exact Hr'.
Qed.

End ActivationLoop.

Lemma follow_up_finite `{Act} (universe : list EffectRef) r :
  (forall e f, follow_up e f -> f ∈ universe) -> pred_finite (tc follow_up r).
Proof.
  intros Hdrawn. exists universe. intros f Hreach.
  induction Hreach as [e f Hstep | e f g Hstep _ IH]; eauto.
Qed.

(** C7, as the code has it.  Take any table of effect objects whose follow-ups
    are all drawn from a finite set and in which no effect is reached from
    itself by a chain of one or more follow-ups.  Then the loop of
    [Lunge.activate], started on any finite work list of effects with follow-ups
    from that table and in any state, comes to an end after finitely many
    iterations, whatever the tiles and whatever [process_effect] answers. *)
Theorem Lunge_loop_terminates `{Act} (universe : list EffectRef)
    (entity : EntityID) (target_tiles : list Tile.t) (effects : list EffectData) (s : State) :
  (forall e f, follow_up e f -> f ∈ universe) ->
  (forall e, ~ tc follow_up e e) ->
  exists fuel r, skills.Lunge_loop entity fuel target_tiles effects s = Some r.
Proof.
  intros Hdrawn Hacyclic.
  assert (Hsn : forall r, sn follow_up r).
  { intros r. apply tc_finite_sn; [exact Hacyclic | by apply (follow_up_finite universe)]. }
  apply terminates_each, Forall_forall. intros effect _.
  apply terminates_effect. intros r _. apply terminates_sn, Hsn.
Qed.

Lemma BasicAttack_body_eq `{Act} entity target_tiles effects s :
  skills.BasicAttack_body entity target_tiles effects s =
    match list_pop effects s with
    | (Ok (effect, rest), s') =>
        fold_m target_tiles (BasicAttack_tile_step entity effect) rest s'
    | (Raise e, s') => (Raise e, s')
    end.
Proof.
  unfold skills.BasicAttack_body, bind.
  by destruct (list_pop effects s) as [[[effect rest]|e] s'].
Qed.

Lemma BasicAttack_tile_step_no_follow_ups `{Act} entity effect tile s :
  success_effects effect = [] -> fail_effects effect = [] ->
  match BasicAttack_tile_step entity (inl effect) [] tile s with
  | (Ok effects, _) => effects = []
  | (Raise _, _) => True
  end.
Proof.
  intros Hs Hf. unfold BasicAttack_tile_step, bind, ret.
  destruct (get_tiles _ _ _ s) as [[effected|e] s1]; [|done].
  destruct (process_effect effect effected entity s1) as [[result|e] s2]; [|done].
  replace (skills._process_result result effect) with (@nil EffectRef); [done|].
  unfold skills._process_result. rewrite Hs, Hf. by destruct result.
Qed.

Lemma BasicAttack_tiles_no_follow_ups `{Act} entity effect tiles :
  success_effects effect = [] -> fail_effects effect = [] ->
  forall s, match fold_m tiles (BasicAttack_tile_step entity (inl effect)) [] s with
            | (Ok effects, _) => effects = []
            | (Raise _, _) => True
            end.
Proof.
  intros Hs Hf. induction tiles as [|tile tiles IH]; intros s; [done|].
  cbn [fold_m]. unfold bind.
  pose proof (BasicAttack_tile_step_no_follow_ups entity effect tile s Hs Hf) as Hstep.
  destruct (BasicAttack_tile_step entity (inl effect) [] tile s) as [[effects|e] s1];
    [|done].
  subst effects. apply IH.
Qed.

(** [BasicAttack.activate]: its one effect has no follow-ups, so a single
    iteration empties the work list, whatever the tiles and the outcome. *)
Lemma BasicAttack_activate_terminates `{Act} (entity : EntityID) (name : string)
    (target_tiles : list Tile.t) (s : State) :
  exists r, skills.BasicAttack_activate entity name 1 target_tiles s = Some r.
Proof.
  unfold skills.BasicAttack_activate, skills.BasicAttack_create_effects.
  rewrite fmap_cons, fmap_nil, while_effects_step by done.
  rewrite BasicAttack_body_eq. unfold list_pop. rewrite reverse_singleton.
  unfold ret. cbv beta iota. rewrite reverse_nil.
  match goal with
  | |- context [fold_m _ (BasicAttack_tile_step _ (inl ?e)) _ _] =>
      pose proof (BasicAttack_tiles_no_follow_ups entity e target_tiles eq_refl eq_refl s)
        as Hfold
  end.
  destruct (fold_m _ _ _ _) as [[effects|e] s']; [subst effects|]; eauto.
Qed.

(** A follow-up list appended by [BasicAttack.activate] is popped as if it
    were an effect, and the loop ends in an [AttributeError]. *)
Lemma BasicAttack_body_pops_list :
  (skills.BasicAttack_body (H := recording_act one_follow_up) 1%nat [Tile.mk 3 4]
     [inl first_effect; inr [0%nat]] initial_state).1
  = Raise (AttributeError "'list' object has no attribute 'shape'").
Proof. reflexivity. Qed.

(** C1 at the effects that [Lunge.create_effects] builds, on one target tile
    and with every application observed: the loop of [Lunge.activate] applies
    the damage effect, appended last, before the move effect, appended first
    (last in, first out), while first-in-first-out processing of the same list
    applies the move effect first. *)
Theorem Lunge_activate_applies_last_first (s : State) :
  log_of (skills.Lunge_activate (H := recording_act no_follow_ups) 1%nat "lunge" 2
            [Tile.mk 3 4] s)
    = Some (log s ++ [LogDebug "lunge damage"; LogDebug "lunge move"]) /\
  log_of (fifo_loop (H := recording_act no_follow_ups) 1%nat 2 [Tile.mk 3 4]
            (skills.Lunge_create_effects (H := recording_act no_follow_ups) 1%nat "lunge") s)
    = Some (log s ++ [LogDebug "lunge move"; LogDebug "lunge damage"]).
Proof.
  split; simpl; by rewrite <- app_assoc.
Qed.

(** A follow-up queued by the second effect is applied before the first effect
    of the initial list, which was queued before it. *)
Lemma Lunge_loop_follow_up_jumps_queue (s : State) :
  log_of (skills.Lunge_loop (H := recording_act one_follow_up) 1%nat 3 [Tile.mk 3 4]
            [first_effect; second_effect] s)
    = Some (log s ++ [LogDebug "second damage"; LogDebug "follow-up damage";
                      LogDebug "first damage"]) /\
  log_of (fifo_loop (H := recording_act one_follow_up) 1%nat 3 [Tile.mk 3 4]
            [first_effect; second_effect] s)
    = Some (log s ++ [LogDebug "first damage"; LogDebug "second damage";
                      LogDebug "follow-up damage"]).
Proof.
  split; simpl; by rewrite <- !app_assoc.
Qed.

Lemma fan_out_follow_up e f :
  follow_up (H := recording_act fan_out) e f -> e = 0%nat /\ (f = 1%nat \/ f = 2%nat).
Proof.
  unfold follow_up. simpl. destruct e as [|e]; simpl.
  - rewrite !elem_of_cons, !elem_of_nil. intuition.
  - rewrite !elem_of_nil. intuition.
Qed.

Lemma Lunge_loop_terminates_witness :
  exists fuel r,
    skills.Lunge_loop (H := recording_act fan_out) 1%nat fuel [Tile.mk 3 4] [fan_out 0%nat]
      initial_state = Some r.
Proof.
  apply (Lunge_loop_terminates (H := recording_act fan_out) [1%nat; 2%nat]).
  - intros e f [_ [-> | ->]]%fan_out_follow_up; rewrite !elem_of_cons; auto.
  - intros e Hloop. inversion Hloop as [? ? Hstep | ? f ? Hstep Hrest]; subst.
    + apply fan_out_follow_up in Hstep. lia.
    + apply fan_out_follow_up in Hstep as [-> Hf].
      inversion Hrest as [? ? Hstep' | ? g ? Hstep' _]; subst;
        apply fan_out_follow_up in Hstep'; lia.
Defined.

(** C7, as the specification words it, fails: two effects that name each other as
    success follow-up are drawn from a finite set and neither names itself, yet
    with every application succeeding the loop of [Lunge.activate] is still
    running after any number of iterations. *)
Lemma Lunge_loop_two_cycle_runs_forever :
  (forall e f, follow_up (H := recording_act two_cycle) e f -> f ∈ [0%nat; 1%nat]) /\
  (forall e, ~ follow_up (H := recording_act two_cycle) e e) /\
  (forall fuel s,
      skills.Lunge_loop (H := recording_act two_cycle) 1%nat fuel [Tile.mk 3 4]
        [two_cycle 0%nat] s = None).
Proof.
  split; [|split].
  - intros e f. unfold follow_up. simpl.
    destruct e as [|e]; simpl; rewrite !elem_of_cons, !elem_of_nil; intuition.
  - intros e. unfold follow_up. simpl.
    destruct e as [|e]; simpl; rewrite !elem_of_cons, !elem_of_nil; intuition; lia.
  - intros fuel.
    assert (Hboth : forall s,
      skills.Lunge_loop (H := recording_act two_cycle) 1%nat fuel [Tile.mk 3 4]
        [two_cycle 0%nat] s = None /\
      skills.Lunge_loop (H := recording_act two_cycle) 1%nat fuel [Tile.mk 3 4]
        [two_cycle 1%nat] s = None); [|intros s; apply Hboth].
    induction fuel as [|fuel IH]; intros s; [done|].
    split; unfold skills.Lunge_loop; rewrite while_effects_step by done; apply IH.
Qed.

(** ** existence.py *)

Section Primitives.
Context {A : Type} (component : ComponentType A).
Variables (entity : EntityID) (c : Components) (s : State).
Hypothesis Hc : world s !! entity = Some c.

Lemma entity_components_eq : entity_components entity s = (Ok c, s).
Proof. unfold entity_components. by rewrite Hc. Qed.

Lemma has_component_eq :
  has_component entity component s = (Ok (bool_decide (is_Some (comp_get component c))), s).
Proof. unfold has_component, bind. by rewrite entity_components_eq. Qed.

Lemma has_component_true a :
  comp_get component c = Some a -> has_component entity component s = (Ok true, s).
Proof. intros Ha. rewrite has_component_eq, Ha. by rewrite bool_decide_true by eauto. Qed.

Lemma has_component_false :
  comp_get component c = None -> has_component entity component s = (Ok false, s).
Proof.
  intros Ha. rewrite has_component_eq, Ha. by rewrite bool_decide_false by (by intros [? ?]).
Qed.

Lemma get_entitys_component_found a :
  comp_get component c = Some a ->
  existence.get_entitys_component entity component s = (Ok (Some a), s).
Proof.
  intros Ha. unfold existence.get_entitys_component, bind.
  rewrite has_component_eq, Ha. rewrite bool_decide_true by eauto.
  unfold snecs_entity_component, bind. by rewrite entity_components_eq, Ha.
Qed.

(** A missing component is logged and the caller gets [None]. *)
Lemma get_entitys_component_not_found :
  comp_get component c = None ->
  existence.get_entitys_component entity component s
  = (Ok None, set_log (fun l => l ++ [LogComponentNotFound entity (component_name component)]) s).
Proof.
  intros Ha. unfold existence.get_entitys_component, bind.
  rewrite has_component_eq, Ha. rewrite bool_decide_false by (by intros [? ?]).
  done.
Qed.

Lemma add_component_eq v :
  comp_get component c = None ->
  existence.add_component entity component v s
  = (Ok tt, set_world (insert entity (comp_set component (Some v) c)) s).
Proof.
  intros Ha. unfold existence.add_component, snecs_add_component, bind.
  by rewrite entity_components_eq, Ha.
Qed.

Lemma remove_component_eq a :
  comp_get component c = Some a ->
  snecs_remove_component entity component s
  = (Ok tt, set_world (insert entity (comp_set component None c)) s).
Proof.
  intros Ha. unfold snecs_remove_component, bind.
  by rewrite entity_components_eq, Ha.
Qed.

End Primitives.

Lemma comp_get_set_same {A} (t : ComponentType A) v c : comp_get t (comp_set t v c) = v.
Proof. by destruct t. Qed.

Lemma spend_time_tracked entity c t cost s :
  world s !! entity = Some c ->
  c_tracked c = Some t ->
  existence.spend_time entity cost s
  = (Ok tt,
     set_world (alter (comp_set TTracked (Some (mkTracked (time_spent t + cost)))) entity) s).
Proof.
  intros Hc Ht. unfold existence.spend_time, try_except_KeyError, bind.
  rewrite (get_entitys_component_found TTracked entity c s Hc t Ht). simpl.
  by destruct t.
Qed.

(** Without a Tracked component the lookup returns [None], and the attribute
    access on it raises an exception that the [except KeyError] does not catch. *)
Lemma spend_time_without_tracked entity c cost s :
  world s !! entity = Some c ->
  c_tracked c = None ->
  existence.spend_time entity cost s
  = (Raise (AttributeError "'NoneType' object has no attribute 'time_spent'"),
     set_log (fun l => l ++ [LogComponentNotFound entity "Tracked"]) s).
Proof.
  intros Hc Ht. unfold existence.spend_time, try_except_KeyError, bind.
  by rewrite (get_entitys_component_not_found TTracked entity c s Hc Ht).
Qed.

(** C9 at an entity that exists and holds neither a Tracked nor a Behaviour
    component: the lookups do log the condition and return [None], but
    [spend_time] and [take_turn] then end in an [AttributeError] that nothing
    handles, so they do not complete. *)
Theorem missing_component_is_not_recovered `{existence.Thought} :
  existence.get_entitys_component 3%nat TTracked sample_state
    = (Ok None, set_log (fun l => l ++ [LogComponentNotFound 3%nat "Tracked"]) sample_state) /\
  (existence.spend_time 3%nat 10 sample_state).1
    = Raise (AttributeError "'NoneType' object has no attribute 'time_spent'") /\
  (existence.take_turn 3%nat sample_state).1
    = Raise (AttributeError "'NoneType' object has no attribute 'behaviour'").
Proof.
  assert (Hc : world sample_state !! 3%nat = Some a_stone) by done.
  split; [|split].
  - by apply (get_entitys_component_not_found TTracked _ a_stone).
  - by rewrite (spend_time_without_tracked _ a_stone).
  - unfold existence.take_turn, existence.get_name, existence.get_identity, bind.
    rewrite (get_entitys_component_found TIdentity _ a_stone _ Hc (mkIdentity "stone" ""))
      by done.
    simpl.
    by rewrite (get_entitys_component_not_found TBehaviour _ a_stone).
Qed.

(** C10.  For an entity that holds a Resources component, [apply_damage]
    returns the health minus the damage, with no clamping, and stores exactly
    that value: the entity keeps its stamina and every other component, the
    other entities are untouched, and nothing is published, logged or
    scheduled. *)
Theorem apply_damage_exact (s : State) (entity : EntityID) (c : Components) (r : Resources)
    (damage : Z) :
  world s !! entity = Some c ->
  c_resources c = Some r ->
  exists s',
    existence.apply_damage entity damage s = (Ok (health r - damage), s') /\
    world s' = <[entity := comp_set TResources
                   (Some (mkResources (health r - damage) (stamina r))) c]> (world s) /\
    same_but_world s s'.
Proof.
  intros Hc Hr. eexists. split; [|split].
  - unfold existence.apply_damage, bind.
    rewrite (get_entitys_component_found TResources entity c s Hc r Hr). simpl.
    reflexivity.
  - simpl. apply map_eq. intros e. destruct (decide (e = entity)) as [->|Hne].
    + by rewrite lookup_alter_eq, lookup_insert_eq, Hc.
    + by rewrite lookup_alter_ne, lookup_insert_ne by done.
  - by repeat split.
Qed.

Lemma apply_damage_exact_witness :
  exists s',
    existence.apply_damage 1%nat 15 sample_state = (Ok (-5), s') /\
    world s' = <[1%nat := comp_set TResources (Some (mkResources (-5) 5)) the_player]>
                 (world sample_state) /\
    same_but_world sample_state s'.
Proof.
  apply (apply_damage_exact sample_state 1%nat the_player (mkResources 10 5) 15);
    reflexivity.
Defined.

(** ** Queries and loops over the entities *)

Lemma elem_of_query {A} (t : ComponentType A) s e a :
  (e, a) ∈ query t s <-> exists c, world s !! e = Some c /\ comp_get t c = Some a.
Proof.
  unfold query. rewrite list_elem_of_omap. split.
  - intros ([e' c] & Hin & Hsome). apply elem_of_map_to_list in Hin.
    destruct (comp_get t c) as [a'|] eqn:Ha; [|done].
    simpl in Hsome. injection Hsome as -> ->. eauto.
  - intros (c & Hc & Ha). exists (e, c). split; [by apply elem_of_map_to_list|].
    by rewrite Ha.
Qed.

Lemma NoDup_omap_keys {K V B} (f : K * V -> option (K * B)) (l : list (K * V)) :
  (forall k v k' b, f (k, v) = Some (k', b) -> k' = k) ->
  NoDup l.*1 -> NoDup (omap f l).*1.
Proof.
  intros Hkey. induction l as [|[k v] l IH]; simpl; [done|].
  intros [Hk Hl]%NoDup_cons. specialize (IH Hl).
  destruct (f (k, v)) as [[k' b]|] eqn:Hf; [|done].
  apply Hkey in Hf as ->. simpl. apply NoDup_cons. split; [|done].
  intros Hin. apply Hk. apply list_elem_of_fmap in Hin as ([k2 b2] & -> & Hin).
  apply list_elem_of_omap in Hin as ([k3 v3] & Hin3 & Hf3).
  apply Hkey in Hf3 as ->. apply list_elem_of_fmap. by exists (k3, v3).
Qed.

Lemma NoDup_query {A} (t : ComponentType A) s : NoDup (query t s).*1.
Proof.
  apply NoDup_omap_keys; [|apply NoDup_fst_map_to_list].
  intros k v k' b. destruct (comp_get t v); [|done]. simpl. by intros [= -> _].
Qed.

Lemma elem_of_not_position s e c :
  (e, c) ∈ system.not_position s <-> world s !! e = Some c /\ c_position c = None.
Proof.
  unfold system.not_position. rewrite list_elem_of_filter, elem_of_map_to_list. simpl.
  tauto.
Qed.

Lemma NoDup_not_position s : NoDup (system.not_position s).*1.
Proof.
  unfold system.not_position.
  pose proof (NoDup_fst_map_to_list (world s)) as Hnd.
  induction (map_to_list (world s)) as [|[e c] l IH]; simpl; [constructor|].
  apply NoDup_cons in Hnd as [He Hl]. rewrite filter_cons.
  destruct (decide (c_position (e, c).2 = None)); [|by apply IH].
  simpl. apply NoDup_cons. split; [|by apply IH].
  intros Hin. apply He. apply list_elem_of_fmap in Hin as ([e' c'] & -> & Hin).
  apply list_elem_of_filter in Hin as [_ Hin]. apply list_elem_of_fmap. by exists (e', c').
Qed.

Lemma same_but_world_refl s : same_but_world s s.
Proof. by repeat split. Qed.

Lemma same_but_world_trans s1 s2 s3 :
  same_but_world s1 s2 -> same_but_world s2 s3 -> same_but_world s1 s3.
Proof.
  unfold same_but_world. intros (?&?&?&?&?&?&?) (?&?&?&?&?&?&?).
  repeat split; congruence.
Qed.

(** A loop over distinct entities whose body replaces the components of its own
    entity by [g] of it and touches nothing else. *)
Lemma for_each_entities {A} (l : list (EntityID * A)) (body : EntityID * A -> M unit)
    (g : EntityID -> Components) (s : State) :
  NoDup l.*1 ->
  (forall e a s', (e, a) ∈ l -> world s' !! e = world s !! e -> time s' = time s ->
     exists s'', body (e, a) s' = (Ok tt, s'') /\
                 world s'' = <[e := g e]> (world s') /\ same_but_world s' s'') ->
  exists s', for_each l body s = (Ok tt, s') /\ same_but_world s s' /\
             forall e, world s' !! e = if decide (e ∈ l.*1) then Some (g e) else world s !! e.
Proof.
  revert s. induction l as [|[e a] l IH]; intros s Hnd Hbody.
  - exists s. split; [done|]. split; [apply same_but_world_refl|]. intros e.
    case_decide as Hin; [|done]. rewrite fmap_nil in Hin. by apply elem_of_nil in Hin.
  - simpl in Hnd. apply NoDup_cons in Hnd as [He Hl].
    destruct (Hbody e a s) as (s1 & Hrun1 & Hw1 & Hsame1);
      [apply list_elem_of_here | done | done |].
    destruct (IH s1 Hl) as (s2 & Hrun2 & Hsame2 & Hw2).
    { intros e' a' s' Hin Hw Ht. apply Hbody.
      - by apply list_elem_of_further.
      - rewrite Hw, Hw1. apply lookup_insert_ne. intros ->. apply He.
        apply list_elem_of_fmap. by exists (e', a').
      - rewrite Ht. apply Hsame1. }
    exists s2. split; [|split].
    + simpl. unfold bind. by rewrite Hrun1.
    + by apply (same_but_world_trans s s1 s2).
    + intros e'. rewrite Hw2, Hw1, fmap_cons. simpl.
      destruct (decide (e' = e)) as [->|Hne].
      * rewrite lookup_insert_eq.
        case_decide as Hrest; case_decide as Hall; try done.
        exfalso. eauto using list_elem_of_here.
      * rewrite lookup_insert_ne by done.
        case_decide as Hrest; case_decide as Hall; try done.
        -- exfalso. eauto using list_elem_of_further.
        -- exfalso. by apply elem_of_cons in Hall as [?|?].
Qed.

(** ** system.py: the activation pass *)

Lemma unchanged_entity s e c :
  world s !! e = Some c ->
  exists s'', (Ok tt, s) = (Ok tt, s'') /\ world s'' = <[e := c]> (world s) /\
              same_but_world s s''.
Proof.
  intros Hc. exists s. split; [done|]. split; [|apply same_but_world_refl].
  symmetry. by apply insert_id.
Qed.

Section ActivationPass.
Context `{Constant}.
Variables (player_pos : Position).

(** The first loop on an entity without position. *)
Lemma activate_without_position e c s now :
  world s !! e = Some c ->
  c_position c = None ->
  exists s'',
    (let* active := has_component e TIsActive in
     if negb active then existence.add_component e TIsActive tt else ret tt) s = (Ok tt, s'')
    /\ world s'' = <[e := activation_of player_pos now c]> (world s)
    /\ same_but_world s s''.
Proof.
  intros Hc Hpos. unfold activation_of. rewrite Hpos.
  destruct (c_is_active c) as [[]|] eqn:Hact.
  - rewrite (bind_ok _ _ _ _ _ (has_component_true TIsActive e c s Hc tt Hact)).
    by apply unchanged_entity.
  - rewrite (bind_ok _ _ _ _ _ (has_component_false TIsActive e c s Hc Hact)).
    cbn [negb]. rewrite (add_component_eq TIsActive e c s Hc tt Hact).
    eexists. split; [done|]. split; [done|]. by repeat split.
Qed.

(** The second loop on an entity with a position. *)
Lemma activate_by_distance e pos c s :
  world s !! e = Some c ->
  c_position c = Some pos ->
  exists s'',
    (let* pp := attr_of (Some player_pos) "x" in
     let distance_x := Z.abs (x pp - x pos) in
     let distance_y := Z.abs (y pp - y pos) in
     if Z.max distance_x distance_y <? MAX_ACTIVATION_DISTANCE then
       let* active := has_component e TIsActive in
       if negb active then
         existence.add_component e TIsActive tt >>
         let* has_tracked := has_component e TTracked in
         if has_tracked then
           let* tracked := existence.get_entitys_component e TTracked in
           let* now := system.get_time in
           let* _ := attr_of tracked "time_spent" in
           store_component e TTracked (mkTracked (now + 1))
         else ret tt
       else ret tt
     else
       let* active := has_component e TIsActive in
       if active then snecs_remove_component e TIsActive else ret tt) s = (Ok tt, s'')
    /\ world s'' = <[e := activation_of player_pos (time s) c]> (world s)
    /\ same_but_world s s''.
Proof.
  intros Hc Hpos. unfold activation_of, chebyshev. rewrite Hpos.
  rewrite (bind_ok _ _ s player_pos s) by done. cbv zeta.
  destruct (Z.max (Z.abs (x player_pos - x pos)) (Z.abs (y player_pos - y pos))
            <? MAX_ACTIVATION_DISTANCE).
  - destruct (c_is_active c) as [[]|] eqn:Hact.
    { rewrite (bind_ok _ _ _ _ _ (has_component_true TIsActive e c s Hc tt Hact)).
      by apply unchanged_entity. }
    rewrite (bind_ok _ _ _ _ _ (has_component_false TIsActive e c s Hc Hact)).
    cbn [negb].
    rewrite (bind_ok _ _ _ _ _ (add_component_eq TIsActive e c s Hc tt Hact)).
    set (c1 := comp_set TIsActive (Some tt) c).
    set (s1 := set_world (insert e c1) s).
    assert (Hc1 : world s1 !! e = Some c1) by apply lookup_insert_eq.
    destruct (c_tracked c) as [t|] eqn:Htr.
    + rewrite (bind_ok _ _ _ _ _ (has_component_true TTracked e c1 s1 Hc1 t Htr)).
      rewrite (bind_ok _ _ _ _ _ (get_entitys_component_found TTracked e c1 s1 Hc1 t Htr)).
      rewrite (bind_ok _ _ s1 (time s) s1) by done.
      rewrite (bind_ok _ _ s1 t s1) by done.
      eexists. split; [done|]. split; [|by repeat split].
      cbn [world store_component modify set_world snd s1]. apply map_eq. intros e'.
      destruct (decide (e' = e)) as [->|Hne].
      * by rewrite lookup_alter_eq, !lookup_insert_eq.
      * by rewrite lookup_alter_ne, !lookup_insert_ne.
    + rewrite (bind_ok _ _ _ _ _ (has_component_false TTracked e c1 s1 Hc1 Htr)).
      eexists. split; [done|]. split; [done|]. by repeat split.
  - destruct (c_is_active c) as [[]|] eqn:Hact.
    + rewrite (bind_ok _ _ _ _ _ (has_component_true TIsActive e c s Hc tt Hact)).
      rewrite (remove_component_eq TIsActive e c s Hc tt Hact).
      eexists. split; [done|]. split; [done|]. by repeat split.
    + rewrite (bind_ok _ _ _ _ _ (has_component_false TIsActive e c s Hc Hact)).
      by apply unchanged_entity.
Qed.

Lemma activation_of_position now c :
  c_position (activation_of player_pos now c) = c_position c.
Proof.
  unfold activation_of. destruct (c_position c) eqn:Hp.
  - destruct (chebyshev player_pos p <? MAX_ACTIVATION_DISTANCE);
      destruct (c_is_active c); [done| |done|done].
    by destruct (c_tracked c).
  - by destruct (c_is_active c).
Qed.

Lemma activation_of_is_player now c :
  c_is_player (activation_of player_pos now c) = c_is_player c.
Proof.
  unfold activation_of. destruct (c_position c) eqn:Hp.
  - destruct (chebyshev player_pos p <? MAX_ACTIVATION_DISTANCE);
      destruct (c_is_active c); [done| |done|done].
    by destruct (c_tracked c).
  - by destruct (c_is_active c).
Qed.

End ActivationPass.

Lemma get_player_unique s p player_pos :
  player_at s p player_pos -> existence.get_player s = (Ok (Some p), s).
Proof.
  intros [(c & Hc & Hpl & _) Huniq].
  unfold existence.get_player. rewrite (bind_ok _ _ s s s) by done.
  assert (Hin : (p, tt) ∈ query TIsPlayer s) by (apply elem_of_query; eauto).
  destruct (query TIsPlayer s) as [|[e []] l] eqn:Hq; [by apply elem_of_nil in Hin|].
  assert (He : (e, tt) ∈ query TIsPlayer s) by (rewrite Hq; apply list_elem_of_here).
  apply elem_of_query in He as (c' & Hc' & Hpl').
  by rewrite (Huniq e c' Hc') by (by exists tt).
Qed.

Section ActivationPassWhole.
Context `{Constant}.
Variables (s : State) (p : EntityID) (player_pos : Position).
Hypothesis Hplayer : player_at s p player_pos.

(** With the player in place the pass succeeds, and it is the map of
    [activation_of] over the world. *)
Lemma process_activations_eq :
  exists s', system.process_activations s = (Ok tt, s') /\ same_but_world s s' /\
             world s' = activation_of player_pos (time s) <$> world s.
Proof.
  set (g := fun e => match world s !! e with
                     | Some c => activation_of player_pos (time s) c
                     | None => no_components
                     end).
  unfold system.process_activations. rewrite (bind_ok _ _ s s s) by done.
  (* first loop *)
  destruct (for_each_entities (system.not_position s)
              (fun '(entity, _) =>
                 let* active := has_component entity TIsActive in
                 if negb active then existence.add_component entity TIsActive tt else ret tt)
              g s (NoDup_not_position s)) as (s1 & Hrun1 & Hsame1 & Hw1).
  { intros e c s' [Hc Hpos]%elem_of_not_position Hw _. unfold g. rewrite Hc.
    apply activate_without_position; [congruence | done]. }
  rewrite (bind_ok _ _ _ _ _ Hrun1).
  assert (Hw1' : forall e, world s1 !! e
                 = (fun c => match c_position c with
                             | None => activation_of player_pos (time s) c
                             | Some _ => c
                             end) <$> world s !! e).
  { intros e. rewrite Hw1. case_decide as Hin.
    - apply list_elem_of_fmap in Hin as ([e' c] & -> & [Hc Hpos]%elem_of_not_position).
      unfold g. simpl. by rewrite Hc; simpl; rewrite Hpos.
    - destruct (world s !! e) as [c|] eqn:Hc; [|done]. simpl.
      destruct (c_position c) eqn:Hpos; [done|]. exfalso. apply Hin.
      apply list_elem_of_fmap. exists (e, c). split; [done|].
      by apply elem_of_not_position. }
  assert (Hpos1 : forall e c1 pos, world s1 !! e = Some c1 -> c_position c1 = Some pos ->
                    world s !! e = Some c1).
  { intros e c1 pos Hc1 Hpos. rewrite Hw1' in Hc1.
    destruct (world s !! e) as [c|]; [|done]. simpl in Hc1. injection Hc1 as <-.
    destruct (c_position c) eqn:Hp; [done|].
    by rewrite activation_of_position, Hp in Hpos. }
  (* the player *)
  assert (Hplayer1 : player_at s1 p player_pos).
  { destruct Hplayer as [(c & Hc & Hpl & Hpp) Huniq]. split.
    - exists c. rewrite Hw1', Hc. simpl. by rewrite Hpp.
    - intros e c1 Hc1 Hpl1. rewrite Hw1' in Hc1.
      destruct (world s !! e) as [c0|] eqn:Hc0; [|done]. simpl in Hc1. injection Hc1 as <-.
      apply (Huniq e c0 Hc0). destruct (c_position c0); [done|].
      by rewrite activation_of_is_player in Hpl1. }
  rewrite (bind_ok _ _ _ _ _ (get_player_unique s1 p player_pos Hplayer1)).
  destruct Hplayer1 as [(cp & Hcp & _ & Hpp) _].
  rewrite (bind_ok _ _ _ _ _ (get_entitys_component_found TPosition p cp s1 Hcp _ Hpp)).
  rewrite (bind_ok _ _ s1 s1 s1) by done.
  (* second loop *)
  destruct (for_each_entities (query TPosition s1)
              (fun '(entity, pos) =>
                 let* pp := attr_of (Some player_pos) "x" in
                 let distance_x := Z.abs (x pp - x pos) in
                 let distance_y := Z.abs (y pp - y pos) in
                 if Z.max distance_x distance_y <? MAX_ACTIVATION_DISTANCE then
                   let* active := has_component entity TIsActive in
                   if negb active then
                     existence.add_component entity TIsActive tt >>
                     let* has_tracked := has_component entity TTracked in
                     if has_tracked then
                       let* tracked := existence.get_entitys_component entity TTracked in
                       let* now := system.get_time in
                       let* _ := attr_of tracked "time_spent" in
                       store_component entity TTracked (mkTracked (now + 1))
                     else ret tt
                   else ret tt
                 else
                   let* active := has_component entity TIsActive in
                   if active then snecs_remove_component entity TIsActive else ret tt)
              g s1 (NoDup_query TPosition s1)) as (s2 & Hrun2 & Hsame2 & Hw2).
  { intros e pos s' (c1 & Hc1 & Hpos)%elem_of_query Hw Ht.
    pose proof (Hpos1 e c1 pos Hc1 Hpos) as Hc.
    unfold g. rewrite Hc.
    replace (time s) with (time s') by (rewrite Ht; apply Hsame1).
    apply (activate_by_distance player_pos e pos); [congruence | done]. }
  exists s2. split; [exact Hrun2|]. split; [by apply (same_but_world_trans s s1 s2)|].
  apply map_eq. intros e. rewrite Hw2, lookup_fmap. case_decide as Hin.
  - apply list_elem_of_fmap in Hin as ([e' pos] & -> & (c1 & Hc1 & Hpos)%elem_of_query).
    simpl. unfold g. by rewrite (Hpos1 e' c1 pos Hc1 Hpos).
  - rewrite Hw1'. destruct (world s !! e) as [c|] eqn:Hc; [|done]. simpl.
    destruct (c_position c) as [pos|] eqn:Hpos; [|done]. exfalso. apply Hin.
    apply list_elem_of_fmap. exists (e, pos). split; [done|].
    apply elem_of_query. exists c. split; [|done]. rewrite Hw1', Hc. simpl. by rewrite Hpos.
Qed.

End ActivationPassWhole.

Lemma sample_world_entities e c :
  sample_world !! e = Some c ->
  (e = 1%nat /\ c = the_player) \/ (e = 2%nat /\ c = a_rat) \/ (e = 3%nat /\ c = a_stone).
Proof.
  unfold sample_world. intros Hc.
  apply lookup_insert_Some in Hc as [[<- <-]|[_ Hc]]; [by left|].
  apply lookup_insert_Some in Hc as [[<- <-]|[_ Hc]]; [by right; left|].
  apply lookup_singleton_Some in Hc as [<- <-]. by right; right.
Qed.

Lemma sample_player : player_at sample_state 1%nat (mkPosition 0 0 [(0, 0)]).
Proof.
  split.
  - by exists the_player.
  - intros e c [[-> ->]|[[-> ->]|[-> ->]]]%sample_world_entities [u Hu]; done.
Qed.

(** C3.  With the player in place the activation pass succeeds; afterwards
    every entity is still there with its position, an entity without position
    holds the Activation Flag, and an entity with a position holds it exactly
    when its Chebyshev distance to the player is within the activation radius,
    that is below [MAX_ACTIVATION_DISTANCE], the comparison the pass makes. *)
Theorem activation_flag_after_pass `{Constant} (s : State) (p : EntityID)
    (player_pos : Position) :
  player_at s p player_pos ->
  exists s',
    system.process_activations s = (Ok tt, s') /\
    forall e c, world s !! e = Some c ->
      exists c', world s' !! e = Some c' /\ c_position c' = c_position c /\
        match c_position c with
        | None => c_is_active c' = Some tt
        | Some pos =>
            c_is_active c' = Some tt <-> chebyshev player_pos pos < MAX_ACTIVATION_DISTANCE
        end.
Proof.
  intros Hplayer.
  destruct (process_activations_eq s p player_pos Hplayer) as (s' & Hrun & _ & Hw).
  exists s'. split; [done|]. intros e c Hc.
  exists (activation_of player_pos (time s) c). split; [by rewrite Hw, lookup_fmap, Hc|].
  split; [apply activation_of_position|].
  unfold activation_of. destruct (c_position c) as [pos|].
  - destruct (Z.ltb_spec (chebyshev player_pos pos) MAX_ACTIVATION_DISTANCE) as [Hlt|Hge].
    + destruct (c_is_active c) as [[]|] eqn:Hact; [done|].
      destruct (c_tracked c); by destruct c.
    + destruct (c_is_active c) as [[]|] eqn:Hact.
      * split; [by destruct c | lia].
      * split; [congruence | lia].
  - destruct (c_is_active c) as [[]|] eqn:Hact; [done | by destruct c].
Qed.

(** At a distance equal to [MAX_ACTIVATION_DISTANCE] the comparison fails and
    the entity comes out of the pass without the flag. *)
Corollary activation_flag_cleared_at_the_bound `{Constant} (s : State) (p : EntityID)
    (player_pos : Position) (e : EntityID) (c : Components) (pos : Position) :
  player_at s p player_pos ->
  world s !! e = Some c ->
  c_position c = Some pos ->
  chebyshev player_pos pos = MAX_ACTIVATION_DISTANCE ->
  c_is_active <$> world (system.process_activations s).2 !! e = Some None.
Proof.
  intros Hplayer Hc Hpos Hdist.
  destruct (process_activations_eq s p player_pos Hplayer) as (s' & Hrun & _ & Hw).
  rewrite Hrun. simpl. rewrite Hw, lookup_fmap, Hc. simpl.
  unfold activation_of. rewrite Hpos, Hdist, Z.ltb_irrefl.
  destruct (c_is_active c) as [[]|] eqn:Hact; [by destruct c | by rewrite Hact].
Qed.

Lemma activation_flag_after_pass_witness :
  exists s',
    system.process_activations (H := radius_4) sample_state = (Ok tt, s') /\
    forall e c, world sample_state !! e = Some c ->
      exists c', world s' !! e = Some c' /\ c_position c' = c_position c /\
        match c_position c with
        | None => c_is_active c' = Some tt
        | Some pos => c_is_active c' = Some tt <-> chebyshev (mkPosition 0 0 [(0, 0)]) pos < 4
        end.
Proof.
  apply (activation_flag_after_pass (H := radius_4) sample_state 1%nat
           (mkPosition 0 0 [(0, 0)])).
  apply sample_player.
Defined.

(** C4.  When an entity with a Tracked component, within the activation
    radius and without the Activation Flag, goes through the activation pass,
    it comes out with the flag and with its tracked time set to the global time
    plus one, whatever the value was before. *)
Theorem reactivation_syncs_tracked_time `{Constant} (s : State) (p : EntityID)
    (player_pos : Position) (e : EntityID) (c : Components) (pos : Position) (t : Tracked) :
  player_at s p player_pos ->
  world s !! e = Some c ->
  c_position c = Some pos ->
  c_tracked c = Some t ->
  c_is_active c = None ->
  chebyshev player_pos pos < MAX_ACTIVATION_DISTANCE ->
  exists s' c' t',
    system.process_activations s = (Ok tt, s') /\
    world s' !! e = Some c' /\ c_is_active c' = Some tt /\
    c_tracked c' = Some (mkTracked t') /\ t' = time s + 1 /\ time s + 1 <= t'.
Proof.
  intros Hplayer Hc Hpos Htr Hact Hclose.
  destruct (process_activations_eq s p player_pos Hplayer) as (s' & Hrun & _ & Hw).
  exists s', (activation_of player_pos (time s) c), (time s + 1).
  split; [done|]. split; [by rewrite Hw, lookup_fmap, Hc|].
  unfold activation_of. rewrite Hpos, Hact, Htr.
  apply Z.ltb_lt in Hclose. rewrite Hclose. simpl. repeat split; lia.
Qed.

Lemma reactivation_syncs_tracked_time_witness :
  exists s' c' t',
    system.process_activations (H := radius_4) sample_state = (Ok tt, s') /\
    world s' !! 2%nat = Some c' /\ c_is_active c' = Some tt /\
    c_tracked c' = Some (mkTracked t') /\ t' = 10 + 1 /\ 10 + 1 <= t'.
Proof.
  apply (reactivation_syncs_tracked_time (H := radius_4) sample_state 1%nat
           (mkPosition 0 0 [(0, 0)]) 2%nat a_rat (mkPosition 1 1 [(1, 1)]) (mkTracked 100)).
  - apply sample_player.
  - reflexivity.
  - reflexivity.
  - reflexivity.
  - reflexivity.
  - reflexivity.
Defined.

(** ** Tracked time under [spend_time] and the activation pass *)





(** ** system.py: the transparency layer of a viewer *)

Lemma normalize_index_in_bounds n i : 0 <= i < n -> normalize_index n i = Some i.
Proof.
  intros Hi. unfold normalize_index.
  destruct (Z.leb_spec 0 i); [|lia]. destruct (Z.ltb_spec i n); [done|lia].
Qed.







(** ** entity_handler.py *)

(** The module object [entity] is equal to no entity id and not to [None]. *)
Lemma module_is_no_entity (o : option EntityID) :
  py_eq entity_handler.entity (py_optional o) = false.
Proof. by destruct o. Qed.

(** The rebuild in [process_die] is never reached, whatever the turn holder. *)
Lemma process_die_ignores_chrono (C1 C2 : Chrono) (dying_entity : EntityID) (s : State) :
  entity_handler.process_die (chrono := C1) dying_entity s
  = entity_handler.process_die (chrono := C2) dying_entity s.
Proof.
  unfold entity_handler.process_die, bind, entity_handler.get_turn_queue,
    entity_handler.get_turn_holder.
  destruct (bool_decide (is_Some (turn_queue s !! dying_entity)));
    unfold modify, ret; cbn [turn_holder set_turn_queue];
    by rewrite module_is_no_entity.
Qed.

(** C6 at the death of the current turn holder, a rat that is not the player:
    whatever the rebuild of the [chrono] module does, [process_die] ends in
    the same state, with the rat taken out of the queue and scheduled for
    deletion, the queue otherwise as it was, and the rat still the turn
    holder.  The rebuild is not run. *)
Theorem process_die_of_turn_holder_skips_rebuild `{Chrono} :
  turn_holder sample_state = Some 2%nat /\
  existence.get_player sample_state = (Ok (Some 1%nat), sample_state) /\
  entity_handler.process_die 2%nat sample_state = (Ok tt, after_rat_died) /\
  entity_handler.process_die (chrono := marking_chrono) 2%nat sample_state
    = (Ok tt, after_rat_died).
Proof.
  split; [reflexivity|]. split; [vm_compute; reflexivity|].
  rewrite (process_die_ignores_chrono _ marking_chrono).
  split; vm_compute; reflexivity.
Qed.

Section ProcessSkill.
Context {library : Library} {skill : Skill}.
Variables (s : State) (ent : EntityID) (skill_name : string) (start_pos direction : Z * Z).
Variable rt : ResourceType.
Hypothesis Hrt : resource_type (get_skill_data skill_name) = Some rt.
Hypothesis Hbroke :
  can_afford_cost ent rt (resource_cost (get_skill_data skill_name)) s = (Ok false, s).

Lemma process_skill_unaffordable_eq :
  entity_handler.process_skill ent skill_name start_pos direction s
  = (let* player := existence.get_player in
     if py_eq (PyEntity ent) (py_optional player) then
       publish (MessageEvent LOG "You cannot afford to do that.")
     else
       let* name := existence.get_name ent in
       logging (LogWarning (name +:+ " tried to use " +:+ skill_name
                            +:+ ", which they can`t afford"))) s.
Proof.
  unfold entity_handler.process_skill. rewrite Hrt.
  by rewrite (bind_ok _ _ _ _ _ Hbroke).
Qed.

Lemma get_name_keeps_state e :
  let s' := (existence.get_name e s).2 in
  world s' = world s /\ published s' = published s /\
  deletion_schedule s' = deletion_schedule s /\ time s' = time s /\
  turn_queue s' = turn_queue s /\ turn_holder s' = turn_holder s.
Proof.
  destruct (world s !! e) as [c|] eqn:Hc.
  - unfold existence.get_name, existence.get_identity.
    destruct (c_identity c) as [i|] eqn:Hi.
    + by rewrite (bind_ok _ _ _ _ _ (get_entitys_component_found TIdentity e c s Hc i Hi)).
    + by rewrite (bind_ok _ _ _ _ _ (get_entitys_component_not_found TIdentity e c s Hc Hi)).
  - unfold existence.get_name, existence.get_identity, existence.get_entitys_component,
      has_component, entity_components, bind.
    by rewrite Hc.
Qed.

End ProcessSkill.

Lemma get_player_total s :
  exists player, existence.get_player s = (Ok player, s).
Proof.
  unfold existence.get_player. rewrite (bind_ok _ _ s s s) by done.
  destruct (query TIsPlayer s) as [|[e u] l]; eauto.
Qed.

Lemma py_eq_entity ent player :
  py_eq (PyEntity ent) (py_optional player) = bool_decide (player = Some ent).
Proof.
  destruct player as [p|]; simpl; [|done].
  destruct (Nat.eqb_spec ent p) as [->|Hne].
  - by rewrite bool_decide_true.
  - rewrite bool_decide_false; [done|]. by intros [= ->].
Qed.

Lemma get_name_of_entity_aux (s : State) (e : EntityID) (c : Components) :
  world s !! e = Some c ->
  existence.get_name e s =
    match c_identity c with
    | Some i => (Ok (name i), s)
    | None => (Ok "not found", set_log (fun l => l ++ [LogComponentNotFound e "Identity"]) s)
    end.
Proof.
  intros Hc. unfold existence.get_name, existence.get_identity.
  destruct (c_identity c) as [i|] eqn:Hi.
  - by rewrite (bind_ok _ _ _ _ _ (get_entitys_component_found TIdentity e c s Hc i Hi)).
  - by rewrite (bind_ok _ _ _ _ _ (get_entitys_component_not_found TIdentity e c s Hc Hi)).
Qed.

(** An actor that is not in the world and is not the player: reading its name
    raises [KeyError] before anything is logged or published. *)
Lemma unaffordable_skill_of_missing_actor_raises {library : Library} {skill : Skill}
    (s : State) (ent : EntityID) (skill_name : string) (start_pos direction : Z * Z)
    (rt : ResourceType) (player : option EntityID) :
  resource_type (get_skill_data skill_name) = Some rt ->
  can_afford_cost ent rt (resource_cost (get_skill_data skill_name)) s = (Ok false, s) ->
  existence.get_player s = (Ok player, s) ->
  player <> Some ent ->
  world s !! ent = None ->
  entity_handler.process_skill ent skill_name start_pos direction s
  = (Raise (KeyError ("entity " +:+ pretty ent)), s).
Proof.
  intros Hrt Hbroke Hplayer Hne Hc.
  rewrite (process_skill_unaffordable_eq s ent skill_name start_pos direction rt Hrt Hbroke).
  rewrite (bind_ok _ _ _ _ _ Hplayer), py_eq_entity.
  rewrite bool_decide_false by done.
  unfold existence.get_name, existence.get_identity, existence.get_entitys_component,
    has_component, entity_components, bind.
  by rewrite Hc.
Qed.

(** C8, as the code has it.  When the skill has a resource type and the check
    answers that the actor, an entity of the world, cannot afford the cost,
    [process_skill] returns normally and leaves the world, the turn queue, the
    turn holder, the time and the deletion schedule as they were, so nothing is
    deducted and the skill is not used; no end-turn event is published.  When
    the actor is the player the message event is published and the log is left
    alone; for any other actor nothing is published at all and a warning with
    the actor's name and the skill is written to the log, after the
    component-not-found record when the actor has no Identity. *)
Theorem unaffordable_skill_changes_nothing {library : Library} {skill : Skill}
    (s : State) (ent : EntityID) (skill_name : string) (start_pos direction : Z * Z)
    (rt : ResourceType) (player : option EntityID) (c : Components) :
  resource_type (get_skill_data skill_name) = Some rt ->
  can_afford_cost ent rt (resource_cost (get_skill_data skill_name)) s = (Ok false, s) ->
  existence.get_player s = (Ok player, s) ->
  world s !! ent = Some c ->
  let r := entity_handler.process_skill ent skill_name start_pos direction s in
  let s' := r.2 in
  r.1 = Ok tt /\
  world s' = world s /\ turn_queue s' = turn_queue s /\ turn_holder s' = turn_holder s /\
  time s' = time s /\ deletion_schedule s' = deletion_schedule s /\
  published s' =
    (if decide (player = Some ent)
     then published s ++ [MessageEvent LOG "You cannot afford to do that."]
     else published s) /\
  log s' =
    (if decide (player = Some ent) then log s
     else match c_identity c with
          | Some i =>
              log s ++ [LogWarning (name i +:+ " tried to use " +:+ skill_name
                                    +:+ ", which they can`t afford")]
          | None =>
              log s ++ [LogComponentNotFound ent "Identity";
                        LogWarning ("not found" +:+ " tried to use " +:+ skill_name
                                    +:+ ", which they can`t afford")]
          end).
Proof.
  intros Hrt Hbroke Hplayer Hc.
  rewrite (process_skill_unaffordable_eq s ent skill_name start_pos direction rt Hrt Hbroke).
  rewrite (bind_ok _ _ _ _ _ Hplayer), py_eq_entity.
  case_decide as Hp.
  - rewrite bool_decide_true by done. simpl. by repeat split.
  - rewrite bool_decide_false by done.
    pose proof (get_name_of_entity_aux s ent c Hc) as Hname.
    destruct (c_identity c) as [i|]; rewrite (bind_ok _ _ _ _ _ Hname); cbn.
    + by repeat split.
    + repeat split. by rewrite <- app_assoc.
Qed.

Lemma unaffordable_skill_changes_nothing_witness :
  let r := entity_handler.process_skill (library := flat_library) (skill := unaffordable)
             2%nat "basic_attack" (1, 1) (-1, -1) sample_state in
  let s' := r.2 in
  r.1 = Ok tt /\
  world s' = world sample_state /\ turn_queue s' = turn_queue sample_state /\
  turn_holder s' = turn_holder sample_state /\
  time s' = time sample_state /\ deletion_schedule s' = deletion_schedule sample_state /\
  published s' =
    (if decide (Some 1%nat = Some 2%nat)
     then published sample_state ++ [MessageEvent LOG "You cannot afford to do that."]
     else published sample_state) /\
  log s' =
    (if decide (Some 1%nat = Some 2%nat) then log sample_state
     else match c_identity a_rat with
          | Some i =>
              log sample_state
              ++ [LogWarning (name i +:+ " tried to use " +:+ "basic_attack"
                              +:+ ", which they can`t afford")]
          | None =>
              log sample_state
              ++ [LogComponentNotFound 2%nat "Identity";
                  LogWarning ("not found" +:+ " tried to use " +:+ "basic_attack"
                              +:+ ", which they can`t afford")]
          end).
Proof.
  apply (unaffordable_skill_changes_nothing (library := flat_library) (skill := unaffordable)
           sample_state 2%nat "basic_attack" (1, 1) (-1, -1) STAMINA (Some 1%nat) a_rat).
  - reflexivity.
  - reflexivity.
  - vm_compute; reflexivity.
  - reflexivity.
Defined.

(** C8, as the specification words it, fails for an actor other than the player: the
    rat cannot afford the skill, and [process_skill] publishes no message event
    for it, it only writes a warning to the log. *)
Lemma unaffordable_skill_of_non_player_is_silent :
  can_afford_cost (Skill := unaffordable) 2%nat STAMINA 5 sample_state
    = (Ok false, sample_state) /\
  existence.get_player sample_state = (Ok (Some 1%nat), sample_state) /\
  let r := entity_handler.process_skill (library := flat_library) (skill := unaffordable)
             2%nat "basic_attack" (1, 1) (-1, -1) sample_state in
  r.1 = Ok tt /\
  published r.2 = [] /\
  log r.2 = [LogWarning "rat tried to use basic_attack, which they can`t afford"].
Proof.
  split; [reflexivity|]. split; [vm_compute; reflexivity|].
  split; [vm_compute; reflexivity|]. split; vm_compute; reflexivity.
Qed.

(* ====================================================================== *)
(** * Further properties of the embedded code *)
(* ====================================================================== *)

Lemma state_eq (s1 s2 : State) :
  world s1 = world s2 -> same_but_world s1 s2 -> s1 = s2.
Proof.
  destruct s1, s2. unfold same_but_world. simpl.
  intros -> (-> & -> & -> & -> & -> & -> & ->). done.
Qed.

(** ** existence.py *)

(** X1.  [get_player] always succeeds and leaves the state alone; an entity it
    returns holds the IsPlayer component, and it returns [None] only when no
    entity of the world holds it. *)
Theorem get_player_returns_a_player (s : State) :
  exists player,
    existence.get_player s = (Ok player, s) /\
    match player with
    | Some p => exists c, world s !! p = Some c /\ c_is_player c = Some tt
    | None => forall e c, world s !! e = Some c -> c_is_player c = None
    end.
Proof.
  unfold existence.get_player. rewrite (bind_ok _ _ s s s) by done.
  destruct (query TIsPlayer s) as [|[p []] l] eqn:Hq.
  - exists None. split; [done|]. intros e c Hc.
    destruct (c_is_player c) as [[]|] eqn:Hp; [|done].
    assert (Hin : (e, tt) ∈ query TIsPlayer s) by (apply elem_of_query; eauto).
    rewrite Hq in Hin. by apply elem_of_nil in Hin.
  - exists (Some p). split; [done|].
    assert (Hin : (p, tt) ∈ query TIsPlayer s) by (rewrite Hq; apply list_elem_of_here).
    by apply elem_of_query in Hin.
Qed.

(** X2.  For an entity of the world [get_name] never raises: it returns the
    name of the Identity component, or the text "not found" together with a
    component-not-found record in the log when the entity has no Identity. *)
Theorem get_name_of_entity (s : State) (e : EntityID) (c : Components) :
  world s !! e = Some c ->
  existence.get_name e s =
    match c_identity c with
    | Some i => (Ok (name i), s)
    | None => (Ok "not found", set_log (fun l => l ++ [LogComponentNotFound e "Identity"]) s)
    end.
Proof. apply get_name_of_entity_aux. Qed.

Lemma get_name_of_entity_witness :
  existence.get_name 2%nat sample_state = (Ok "rat", sample_state).
Proof.
  apply (get_name_of_entity sample_state 2%nat a_rat). reflexivity.
Defined.

(** X3.  [delete] is deferred and never fails: the world is left as it is, the
    entity joins the set of scheduled deletions exactly when its id is not 0
    and it is in the world (an entity that is already scheduled stays in it
    once), nothing is published, and each of the three cases writes to the
    log. *)
Theorem delete_is_deferred (s : State) (e : EntityID) :
  let r := existence.delete e s in
  r.1 = Ok tt /\ world r.2 = world s /\ published r.2 = published s /\
  deletion_schedule r.2
    = (if decide (e <> 0%nat /\ is_Some (world s !! e))
       then {[ e ]} ∪ deletion_schedule s else deletion_schedule s) /\
  exists records, records <> [] /\ log r.2 = log s ++ records.
Proof.
  unfold existence.delete. destruct (Nat.eqb_spec e 0) as [->|Hne]; cbn [negb].
  - split; [done|]. split; [done|]. split; [done|]. split.
    + case_decide as Hd; [by destruct Hd|done].
    + by exists [LogError "Tried to delete an entity but entity was None."].
  - unfold snecs_exists. rewrite (bind_ok _ _ s _ s) by done.
    destruct (world s !! e) as [c|] eqn:Hc.
    + rewrite bool_decide_true by eauto.
      rewrite (bind_ok _ _ s tt (set_deletion_schedule (fun d => {[ e ]} ∪ d) s)) by done.
      set (s1 := set_deletion_schedule _ s).
      assert (Hc1 : world s1 !! e = Some c) by done.
      pose proof (get_name_of_entity_aux s1 e c Hc1) as Hname.
      destruct (c_identity c) as [i|]; rewrite (bind_ok _ _ _ _ _ Hname); cbn.
      * split; [done|]. split; [done|]. split; [done|]. split.
        -- by rewrite decide_True by eauto.
        -- by eexists [_].
      * split; [done|]. split; [done|]. split; [done|]. split.
        -- by rewrite decide_True by eauto.
        -- eexists [_; _]. split; [done|]. by rewrite <- app_assoc.
    + rewrite bool_decide_false by (by intros [? ?]). cbn.
      split; [done|]. split; [done|]. split; [done|]. split.
      * case_decide as Hd; [|done]. destruct Hd as [_ [? ?]]. done.
      * by eexists [_].
Qed.

Lemma set_world_set_world f g s : set_world g (set_world f s) = set_world (fun w => g (f w)) s.
Proof. done. Qed.

Lemma set_world_ext f g s : f (world s) = g (world s) -> set_world f s = set_world g s.
Proof. unfold set_world. by intros ->. Qed.

(** X4.  Spending time adds up: for an entity with a Tracked component,
    spending [a] and then [b] leaves the state that spending [a + b] at once
    leaves, with no other entity touched. *)
Theorem spend_time_adds_up (s : State) (e : EntityID) (c : Components) (t : Tracked) (a b : Z) :
  world s !! e = Some c ->
  c_tracked c = Some t ->
  (existence.spend_time e a >> existence.spend_time e b) s = existence.spend_time e (a + b) s.
Proof.
  intros Hc Ht.
  rewrite (bind_ok _ _ _ _ _ (spend_time_tracked e c t a s Hc Ht)).
  set (t1 := mkTracked (time_spent t + a)).
  set (s1 := set_world _ s).
  assert (Hc1 : world s1 !! e = Some (comp_set TTracked (Some t1) c)).
  { unfold s1. simpl. by rewrite lookup_alter_eq, Hc. }
  rewrite (spend_time_tracked e _ t1 b s1 Hc1) by done.
  rewrite (spend_time_tracked e c t (a + b) s Hc Ht).
  f_equal. unfold s1. rewrite set_world_set_world. apply set_world_ext.
  apply map_eq. intros e'. destruct (decide (e' = e)) as [->|Hne].
  - rewrite !lookup_alter_eq, Hc. simpl. do 3 f_equal. unfold t1. simpl. f_equal. lia.
  - by rewrite !lookup_alter_ne.
Qed.

Lemma spend_time_adds_up_witness :
  (existence.spend_time 1%nat 10 >> existence.spend_time 1%nat 30) sample_state
  = existence.spend_time 1%nat (10 + 30) sample_state.
Proof.
  apply (spend_time_adds_up sample_state 1%nat the_player (mkTracked 10) 10 30); reflexivity.
Defined.

Lemma apply_damage_resources (s : State) (e : EntityID) (c : Components) (r : Resources)
    (damage : Z) :
  world s !! e = Some c ->
  c_resources c = Some r ->
  existence.apply_damage e damage s
  = (Ok (health r - damage),
     set_world (alter (comp_set TResources
                         (Some (mkResources (health r - damage) (stamina r)))) e) s).
Proof.
  intros Hc Hr. unfold existence.apply_damage.
  by rewrite (bind_ok _ _ _ _ _ (get_entitys_component_found TResources e c s Hc r Hr)).
Qed.

(** X5.  Damage adds up and is not checked for sign: for an entity with a
    Resources component, applying [d1] and then [d2] returns the health minus
    [d1 + d2] and leaves the state that applying [d1 + d2] at once leaves. *)
Theorem apply_damage_adds_up (s : State) (e : EntityID) (c : Components) (r : Resources)
    (d1 d2 : Z) :
  world s !! e = Some c ->
  c_resources c = Some r ->
  (existence.apply_damage e d1 >> existence.apply_damage e d2) s
  = existence.apply_damage e (d1 + d2) s /\
  (existence.apply_damage e (d1 + d2) s).1 = Ok (health r - d1 - d2).
Proof.
  intros Hc Hr.
  rewrite (bind_ok _ _ _ _ _ (apply_damage_resources s e c r d1 Hc Hr)).
  set (r1 := mkResources (health r - d1) (stamina r)).
  set (s1 := set_world _ s).
  assert (Hc1 : world s1 !! e = Some (comp_set TResources (Some r1) c)).
  { unfold s1. simpl. by rewrite lookup_alter_eq, Hc. }
  rewrite (apply_damage_resources s1 e _ r1 d2 Hc1) by done.
  rewrite (apply_damage_resources s e c r (d1 + d2) Hc Hr).
  replace (health r - (d1 + d2)) with (health r - d1 - d2) by lia.
  split; [|done]. simpl. f_equal.
  unfold s1. rewrite set_world_set_world. apply set_world_ext.
  apply map_eq. intros e'. destruct (decide (e' = e)) as [->|Hne].
  - by rewrite !lookup_alter_eq, Hc.
  - by rewrite !lookup_alter_ne.
Qed.

Lemma apply_damage_adds_up_witness :
  (existence.apply_damage 2%nat 3 >> existence.apply_damage 2%nat (-5)) sample_state
  = existence.apply_damage 2%nat (3 + -5) sample_state /\
  (existence.apply_damage 2%nat (3 + -5) sample_state).1 = Ok (4 - 3 - -5).
Proof.
  apply (apply_damage_adds_up sample_state 2%nat a_rat (mkResources 4 4) 3 (-5)); reflexivity.
Defined.

(** ** system.py: more on the activation pass *)

Lemma activation_of_idempotent `{Constant} player_pos now c :
  activation_of player_pos now (activation_of player_pos now c)
  = activation_of player_pos now c.
Proof.
  destruct c as [pos res tr idn phy sg fv beh act pl god cs trt imm].
  unfold activation_of. simpl. destruct pos as [pos|]; simpl.
  - destruct (chebyshev player_pos pos <? MAX_ACTIVATION_DISTANCE) eqn:Hclose.
    + destruct act as [[]|]; simpl; [by rewrite Hclose|].
      destruct tr; simpl; by rewrite Hclose.
    + destruct act as [[]|]; simpl; by rewrite Hclose.
  - by destruct act as [[]|].
Qed.

Lemma activation_of_frame `{Constant} player_pos now c :
  comp_set TIsActive None (comp_set TTracked None (activation_of player_pos now c))
  = comp_set TIsActive None (comp_set TTracked None c) /\
  (is_Some (c_tracked (activation_of player_pos now c)) <-> is_Some (c_tracked c)).
Proof.
  destruct c as [pos res tr idn phy sg fv beh act pl god cs trt imm].
  unfold activation_of. simpl. destruct pos as [pos|]; simpl.
  - destruct (chebyshev player_pos pos <? MAX_ACTIVATION_DISTANCE).
    + destruct act as [[]|]; simpl; [done|]. destruct tr; simpl; [|done].
      split; [done|]. split; eauto.
    + by destruct act as [[]|].
  - by destruct act as [[]|].
Qed.

Lemma player_at_after_pass `{Constant} s s' p player_pos :
  player_at s p player_pos ->
  world s' = activation_of player_pos (time s) <$> world s ->
  player_at s' p player_pos.
Proof.
  intros [(c & Hc & Hpl & Hpp) Huniq] Hw. split.
  - exists (activation_of player_pos (time s) c).
    rewrite Hw, lookup_fmap, Hc, activation_of_is_player, activation_of_position. done.
  - intros e c' Hc' Hpl'. rewrite Hw, lookup_fmap in Hc'.
    destruct (world s !! e) as [c0|] eqn:Hc0; [|done]. simpl in Hc'. injection Hc' as <-.
    rewrite activation_of_is_player in Hpl'. eauto.
Qed.

(** X6.  The activation pass is idempotent: with the player in place, running
    it a second time right after the first changes nothing, neither a flag nor
    a tracked time. *)
Theorem process_activations_idempotent `{Constant} (s : State) (p : EntityID)
    (player_pos : Position) :
  player_at s p player_pos ->
  (system.process_activations >> system.process_activations) s
  = system.process_activations s.
Proof.
  intros Hplayer.
  destruct (process_activations_eq s p player_pos Hplayer) as (s1 & Hrun1 & Hsame1 & Hw1).
  pose proof (player_at_after_pass s s1 p player_pos Hplayer Hw1) as Hplayer1.
  destruct (process_activations_eq s1 p player_pos Hplayer1) as (s2 & Hrun2 & Hsame2 & Hw2).
  rewrite (bind_ok _ _ _ _ _ Hrun1), Hrun1, Hrun2. f_equal. symmetry.
  apply state_eq; [|done].
  rewrite Hw2, Hw1, <- map_fmap_compose. apply map_fmap_ext. intros e c _. simpl.
  replace (time s1) with (time s) by (symmetry; apply Hsame1).
  symmetry. apply activation_of_idempotent.
Qed.

Lemma process_activations_idempotent_witness :
  (system.process_activations (H := radius_4) >> system.process_activations (H := radius_4))
    sample_state
  = system.process_activations (H := radius_4) sample_state.
Proof.
  apply (process_activations_idempotent (H := radius_4) sample_state 1%nat
           (mkPosition 0 0 [(0, 0)])).
  apply sample_player.
Defined.

(** X7.  What the activation pass leaves alone: with the player in place it
    succeeds, creates and removes no entity, changes no component other than
    the Activation Flag and the time of a Tracked component that is already
    there, and logs, publishes and schedules nothing. *)
Theorem process_activations_frame `{Constant} (s : State) (p : EntityID)
    (player_pos : Position) :
  player_at s p player_pos ->
  exists s',
    system.process_activations s = (Ok tt, s') /\ same_but_world s s' /\
    dom (world s') = dom (world s) /\
    forall e c', world s' !! e = Some c' ->
      exists c, world s !! e = Some c /\
        comp_set TIsActive None (comp_set TTracked None c')
        = comp_set TIsActive None (comp_set TTracked None c) /\
        (is_Some (c_tracked c') <-> is_Some (c_tracked c)).
Proof.
  intros Hplayer.
  destruct (process_activations_eq s p player_pos Hplayer) as (s' & Hrun & Hsame & Hw).
  exists s'. split; [done|]. split; [done|]. split.
  - rewrite Hw. apply dom_fmap_L.
  - intros e c' Hc'. rewrite Hw, lookup_fmap in Hc'.
    destruct (world s !! e) as [c|]; [|done]. simpl in Hc'. injection Hc' as <-.
    exists c. split; [done|]. apply activation_of_frame.
Qed.

Lemma process_activations_frame_witness :
  exists s',
    system.process_activations (H := radius_4) sample_state = (Ok tt, s') /\
    same_but_world sample_state s' /\
    dom (world s') = dom (world sample_state) /\
    forall e c', world s' !! e = Some c' ->
      exists c, world sample_state !! e = Some c /\
        comp_set TIsActive None (comp_set TTracked None c')
        = comp_set TIsActive None (comp_set TTracked None c) /\
        (is_Some (c_tracked c') <-> is_Some (c_tracked c)).
Proof.
  apply (process_activations_frame (H := radius_4) sample_state 1%nat
           (mkPosition 0 0 [(0, 0)])).
  apply sample_player.
Defined.

(** ** entity_handler.py: more on the handlers *)

Lemma delete_effect (s : State) (e : EntityID) :
  let r := existence.delete e s in
  r.1 = Ok tt /\ world r.2 = world s /\ published r.2 = published s /\
  turn_queue r.2 = turn_queue s /\ turn_holder r.2 = turn_holder s /\
  deletion_schedule r.2
    = (if decide (e <> 0%nat /\ is_Some (world s !! e))
       then {[ e ]} ∪ deletion_schedule s else deletion_schedule s).
Proof.
  unfold existence.delete. destruct (Nat.eqb_spec e 0) as [->|Hne]; cbn [negb].
  - split_and!; try done; try (case_decide as Hd; [by destruct Hd|done]).
  - unfold snecs_exists. rewrite (bind_ok _ _ s _ s) by done.
    destruct (world s !! e) as [c|] eqn:Hc.
    + rewrite bool_decide_true by eauto.
      rewrite (bind_ok _ _ s tt (set_deletion_schedule (fun d => {[ e ]} ∪ d) s)) by done.
      set (s1 := set_deletion_schedule _ s).
      assert (Hc1 : world s1 !! e = Some c) by done.
      pose proof (get_name_of_entity_aux s1 e c Hc1) as Hname.
      destruct (c_identity c) as [i|]; rewrite (bind_ok _ _ _ _ _ Hname); cbn;
        split_and!; try done; by rewrite decide_True by eauto.
    + rewrite bool_decide_false by (by intros [? ?]). cbn.
      split_and!; try done; try (case_decide as Hd; [|done]; destruct Hd as [_ [? ?]]; done).
Qed.

(** X8.  For every dying entity and every state [process_die] succeeds; the
    entity is gone from the turn queue and nothing else in the queue moves,
    the turn holder and the world stay as they are (the removal from the world
    is only scheduled, when the id is not 0 and the entity exists: the entity
    joins the set of scheduled deletions), and nothing is published. *)
Theorem process_die_effect `{Chrono} (s : State) (dying_entity : EntityID) :
  let r := entity_handler.process_die dying_entity s in
  r.1 = Ok tt /\
  turn_queue r.2 = delete dying_entity (turn_queue s) /\
  turn_holder r.2 = turn_holder s /\
  world r.2 = world s /\
  published r.2 = published s /\
  deletion_schedule r.2
    = (if decide (dying_entity <> 0%nat /\ is_Some (world s !! dying_entity))
       then {[ dying_entity ]} ∪ deletion_schedule s else deletion_schedule s).
Proof.
  unfold entity_handler.process_die, entity_handler.get_turn_queue,
    entity_handler.get_turn_holder.
  rewrite (bind_ok _ _ s (turn_queue s) s) by done.
  set (s1 := set_turn_queue (delete dying_entity) s).
  assert (Hpop : exists s0,
    (if bool_decide (is_Some (turn_queue s !! dying_entity))
     then modify (set_turn_queue (delete dying_entity)) else ret tt) s = (Ok tt, s0) /\
    turn_queue s0 = delete dying_entity (turn_queue s) /\ world s0 = world s /\
    published s0 = published s /\ turn_holder s0 = turn_holder s /\
    deletion_schedule s0 = deletion_schedule s).
  { case_bool_decide as Hq.
    - exists s1. by split_and!.
    - exists s. split_and!; try done. symmetry. apply delete_id.
      destruct (turn_queue s !! dying_entity) eqn:Hl; [|done]. exfalso. eauto. }
  destruct Hpop as (s0 & Hrun0 & Hq0 & Hw0 & Hp0 & Hh0 & Hd0).
  rewrite (bind_ok _ _ _ _ _ Hrun0).
  rewrite (bind_ok _ _ s0 (turn_holder s0) s0) by done.
  rewrite module_is_no_entity. rewrite (bind_ok _ _ s0 tt s0) by done.
  destruct (delete_effect s0 dying_entity) as (Hok & Hw & Hp & Hq & Hh & Hd).
  cbv zeta. split_and!; try congruence.
  rewrite Hd, Hw0, Hd0. done.
Qed.

Section ProcessSkillPaths.
Context {library : Library} {skill : Skill}.
Variables (ent : EntityID) (skill_name : string) (start_pos direction : Z * Z).

(** X9.  A skill whose data carries no resource type is dropped without a
    trace: [process_skill] returns with the state as it was, and neither the
    affordability check, nor the payment, nor the use, nor an end of turn
    happens. *)
Theorem skill_without_resource_type_is_ignored (s : State) :
  resource_type (get_skill_data skill_name) = None ->
  entity_handler.process_skill ent skill_name start_pos direction s = (Ok tt, s).
Proof.
  intros Hrt. unfold entity_handler.process_skill. by rewrite Hrt.
Qed.

(** X10.  An affordable skill is paid for first and used second, and the turn
    ends afterwards unless the actor is a god: when the check, the payment and
    the use succeed, [process_skill] ends in the state the use left, with one
    end-turn event for the actor and the time cost of the skill published on
    top for an actor without the IsGod component, and nothing on top for a
    god. *)
Theorem affordable_skill_ends_turn_unless_god (s s0 s1 s2 : State) (rt : ResourceType)
    (c : Components) :
  resource_type (get_skill_data skill_name) = Some rt ->
  can_afford_cost ent rt (resource_cost (get_skill_data skill_name)) s = (Ok true, s0) ->
  pay_resource_cost ent rt (resource_cost (get_skill_data skill_name)) s0 = (Ok tt, s1) ->
  use ent skill_name start_pos direction s1 = (Ok tt, s2) ->
  world s2 !! ent = Some c ->
  entity_handler.process_skill ent skill_name start_pos direction s
  = (Ok tt,
     match c_is_god c with
     | Some _ => s2
     | None =>
         set_published
           (fun evs => evs ++ [EndTurnEvent ent (time_cost (get_skill_data skill_name))]) s2
     end).
Proof.
  intros Hrt Hafford Hpay Huse Hc. unfold entity_handler.process_skill. rewrite Hrt.
  rewrite (bind_ok _ _ _ _ _ Hafford), (bind_ok _ _ _ _ _ Hpay), (bind_ok _ _ _ _ _ Huse).
  destruct (c_is_god c) as [[]|] eqn:Hgod.
  - by rewrite (bind_ok _ _ _ _ _ (has_component_true TIsGod ent c s2 Hc tt Hgod)).
  - by rewrite (bind_ok _ _ _ _ _ (has_component_false TIsGod ent c s2 Hc Hgod)).
Qed.

End ProcessSkillPaths.

Lemma skill_without_resource_type_is_ignored_witness :
  entity_handler.process_skill (library := free_library) (skill := affordable)
    1%nat "basic_attack" (0, 0) (1, 1) sample_state = (Ok tt, sample_state).
Proof.
  apply (skill_without_resource_type_is_ignored (library := free_library)
           (skill := affordable) 1%nat "basic_attack" (0, 0) (1, 1) sample_state).
  reflexivity.
Defined.

Lemma affordable_skill_ends_turn_unless_god_witness :
  entity_handler.process_skill (library := flat_library) (skill := affordable)
    2%nat "basic_attack" (1, 1) (-1, -1) sample_state
  = (Ok tt,
     match c_is_god a_rat with
     | Some _ =>
         set_published (fun evs => evs ++ [MessageEvent LOG "used"])
           (set_published (fun evs => evs ++ [MessageEvent LOG "paid"]) sample_state)
     | None =>
         set_published
           (fun evs => evs ++ [EndTurnEvent 2%nat
                                 (time_cost (get_skill_data (Library := flat_library)
                                               "basic_attack"))])
           (set_published (fun evs => evs ++ [MessageEvent LOG "used"])
              (set_published (fun evs => evs ++ [MessageEvent LOG "paid"]) sample_state))
     end).
Proof.
  apply (affordable_skill_ends_turn_unless_god (library := flat_library)
           (skill := affordable) 2%nat "basic_attack" (1, 1) (-1, -1) sample_state
           sample_state
           (set_published (fun evs => evs ++ [MessageEvent LOG "paid"]) sample_state)
           (set_published (fun evs => evs ++ [MessageEvent LOG "used"])
              (set_published (fun evs => evs ++ [MessageEvent LOG "paid"]) sample_state))
           STAMINA a_rat); reflexivity.
Defined.

(** ** skills.py: more on the activation loops *)

Lemma list_pop_snoc {A} (q : list A) (a : A) s : list_pop (q ++ [a]) s = (Ok (a, q), s).
Proof.
  unfold list_pop. rewrite reverse_snoc. unfold ret. by rewrite reverse_involutive.
Qed.

Lemma snoc_not_nil {A} (q : list A) (a : A) : q ++ [a] <> [].
Proof. by destruct q. Qed.

Section MoreOnLoops.
Context `{Act}.
Variable entity : EntityID.
Variable target_tiles : list Tile.t.

Lemma BasicAttack_tiles_appends e tiles : forall acc s,
  match fold_m tiles (BasicAttack_tile_step entity (inl e)) acc s with
  | (Ok q, _) => exists ls, q = acc ++ (inr <$> ls) /\ (ls <> [] -> tiles <> [])
  | (Raise _, _) => True
  end.
Proof.
  induction tiles as [|tile tiles IH]; intros acc s.
  - exists []. split; [by rewrite app_nil_r | done].
  - cbn [fold_m]. unfold bind at 1.
    destruct (BasicAttack_tile_step entity (inl e) acc tile s) as [[q|x] s1] eqn:Hstep;
      [|done].
    assert (Hq : q = acc \/ exists l, q = acc ++ [inr l]).
    { revert Hstep. unfold BasicAttack_tile_step, bind, ret.
      destruct (get_tiles _ _ _ s) as [[effected|x] s2]; [|done].
      destruct (process_effect e effected entity s2) as [[result|x] s3]; [|done].
      destruct (truthy (skills._process_result result e)); intros [= <- _]; eauto. }
    specialize (IH q s1).
    destruct (fold_m tiles (BasicAttack_tile_step entity (inl e)) q s1) as [[q'|x] s4];
      [|done].
    destruct IH as (ls & -> & _). destruct Hq as [->|[l ->]].
    + exists ls. split; done.
    + exists (l :: ls). split; [by rewrite <- app_assoc | done].
Qed.

Lemma BasicAttack_loop_work_list es : forall ls s,
  (ls <> [] -> target_tiles <> []) ->
  exists r, BasicAttack_loop entity (S (length es)) target_tiles
              ((inl <$> es) ++ (inr <$> ls)) s = Some r.
Proof.
  unfold BasicAttack_loop.
  induction es as [|e es IH] using rev_ind; intros ls s Htiles.
  - destruct ls as [|l ls _] using rev_ind; [by eexists|].
    rewrite fmap_app, app_assoc. change (inr <$> [l]) with [@inr EffectData _ l].
    rewrite while_effects_step by apply snoc_not_nil.
    rewrite BasicAttack_body_eq, list_pop_snoc.
    destruct target_tiles as [|tile tiles]; [by destruct Htiles; [apply snoc_not_nil|]|].
    cbn. by eexists.
  - destruct ls as [|l ls _] using rev_ind.
    + rewrite app_nil_r, fmap_app. change (inl <$> [e]) with [@inl _ (list EffectRef) e].
      rewrite while_effects_step by apply snoc_not_nil.
      rewrite BasicAttack_body_eq, list_pop_snoc.
      pose proof (BasicAttack_tiles_appends e target_tiles (inl <$> es) s) as Hfold.
      destruct (fold_m _ _ _ _) as [[q|x] s1]; [|by eexists].
      destruct Hfold as (ls' & -> & Hls').
      rewrite length_app. simpl. rewrite Nat.add_1_r. by apply IH.
    + rewrite (fmap_app _ ls [l]), app_assoc.
      change (inr <$> [l]) with [@inr EffectData _ l].
      rewrite while_effects_step by apply snoc_not_nil.
      rewrite BasicAttack_body_eq, list_pop_snoc.
      destruct target_tiles as [|tile tiles]; [by destruct Htiles; [apply snoc_not_nil|]|].
      cbn. by eexists.
Qed.

(** X11.  The loop of [BasicAttack.activate] always comes to an end, within one
    iteration more than the work list has effects, whatever the follow-ups
    are, cycles included: a follow-up list it appends is the next item popped
    and ends the loop in an exception. *)
Theorem BasicAttack_loop_always_ends (effects : list EffectData) (s : State) :
  exists r, BasicAttack_loop entity (S (length effects)) target_tiles (inl <$> effects) s
            = Some r.
Proof.
  pose proof (BasicAttack_loop_work_list effects [] s) as Hloop.
  rewrite app_nil_r in Hloop. by apply Hloop.
Qed.

Lemma Lunge_tiles_no_follow_up effect tiles :
  no_follow_up effect -> forall acc s,
  fold_m tiles (Lunge_tile_step entity effect) acc s
  = match apply_to_tiles entity tiles effect s with
    | (Ok _, s') => (Ok acc, s')
    | (Raise x, s') => (Raise x, s')
    end.
Proof.
  intros [Hs Hf]. induction tiles as [|tile tiles IH]; intros acc s; [done|].
  unfold apply_to_tiles. cbn [fold_m for_each]. unfold bind at 1 4.
  unfold Lunge_tile_step at 1. unfold bind at 1 2 3 4.
  destruct (get_tiles _ _ _ s) as [[effected|x] s1]; [|done].
  destruct (process_effect effect effected entity s1) as [[result|x] s2]; [|done].
  replace (skills._process_result result effect) with (@nil EffectRef)
    by (unfold skills._process_result; rewrite Hs, Hf; by destruct result).
  cbn. apply IH.
Qed.

(** X12.  Without follow-ups the loop of [Lunge.activate] is a stack unwinding:
    it applies the effects of the work list from the last to the first, each to
    every target tile in order, in as many iterations as there are effects, and
    stops at the first exception. *)
Theorem Lunge_loop_applies_in_reverse (effects : list EffectData) (s : State) :
  Forall no_follow_up effects ->
  skills.Lunge_loop entity (length effects) target_tiles effects s
  = finished (for_each (reverse effects) (apply_to_tiles entity target_tiles) s).
Proof.
  unfold skills.Lunge_loop. revert s.
  induction effects as [|e es IH] using rev_ind; intros s Hno; [done|].
  apply Forall_app in Hno as [Hes He]. apply Forall_cons in He as [He _].
  rewrite length_app. simpl. rewrite Nat.add_1_r.
  rewrite while_effects_step by apply snoc_not_nil.
  rewrite Lunge_body_eq, list_pop_snoc, reverse_snoc.
  rewrite (Lunge_tiles_no_follow_up e target_tiles He).
  cbn [for_each]. unfold bind.
  destruct (apply_to_tiles entity target_tiles e s) as [[[]|x] s1]; [|done].
  by apply IH.
Qed.

End MoreOnLoops.

Lemma Lunge_loop_applies_in_reverse_witness :
  skills.Lunge_loop (H := recording_act no_follow_ups) 1%nat
    (length (skills.Lunge_create_effects (H := recording_act no_follow_ups) 1%nat "lunge"))
    [Tile.mk 3 4]
    (skills.Lunge_create_effects (H := recording_act no_follow_ups) 1%nat "lunge")
    initial_state
  = finished
      (for_each
         (reverse (skills.Lunge_create_effects (H := recording_act no_follow_ups) 1%nat "lunge"))
         (apply_to_tiles (H := recording_act no_follow_ups) 1%nat [Tile.mk 3 4])
         initial_state).
Proof.
  apply (Lunge_loop_applies_in_reverse (H := recording_act no_follow_ups) 1%nat
           [Tile.mk 3 4]).
  repeat constructor.
Defined.

(** ** existence.py: lookups of single entities *)

Lemma elem_of_query_keys {A} (t : ComponentType A) s e :
  e ∈ (query t s).*1 <-> exists c, world s !! e = Some c /\ is_Some (comp_get t c).
Proof.
  rewrite list_elem_of_fmap. split.
  - intros ([e' a] & -> & (c & Hc & Ha)%elem_of_query). eauto.
  - intros (c & Hc & [a Ha]). exists (e, a). split; [done|]. apply elem_of_query. eauto.
Qed.

Lemma log_grows (s : State) (records : list LogRecord) :
  records <> [] -> log s ++ records <> log s.
Proof.
  intros Hne Heq. apply (f_equal length) in Heq. rewrite length_app in Heq.
  destruct records; [done|]. simpl in Heq. lia.
Qed.

(** X13.  [get_entity] never fails and leaves the world alone.  It returns an
    entity that holds the component, or [None] when no entity holds it; and it
    stays silent exactly when one single entity holds the component: with none
    or with several of them it writes a warning to the log. *)
Theorem get_entity_finds_a_holder {A} (component : ComponentType A) (s : State) :
  exists r s',
    existence_more.get_entity component s = (Ok r, s') /\ world s' = world s /\
    match r with
    | Some e => exists c, world s !! e = Some c /\ is_Some (comp_get component c)
    | None => forall e c, world s !! e = Some c -> comp_get component c = None
    end /\
    (log s' = log s <->
     exists e, forall e', e' = e <->
       exists c, world s !! e' = Some c /\ is_Some (comp_get component c)).
Proof.
  unfold existence_more.get_entity. rewrite (bind_ok _ _ s s s) by done. cbv zeta.
  pose proof (NoDup_query component s) as Hnd.
  pose proof (elem_of_query_keys component s) as Hin.
  destruct ((query component s).*1) as [|e1 [|e2 l]] eqn:Hq; simpl.
  - eexists None, _. split; [done|]. split; [done|]. split.
    + intros e c Hc. destruct (comp_get component c) eqn:Hg; [|done].
      exfalso. apply (not_elem_of_nil e), Hin. eauto.
    + split.
      * intros Hlog. simpl in Hlog. exfalso. by eapply log_grows; [|exact Hlog].
      * intros [e He]. exfalso. apply (not_elem_of_nil e), Hin, He. done.
  - eexists (Some e1), _. split; [done|]. split; [done|]. split.
    + apply Hin. apply list_elem_of_here.
    + split; [|done]. intros _. exists e1. intros e'. rewrite <- Hin.
      rewrite list_elem_of_singleton. done.
  - eexists (Some e1), _. split; [done|]. split; [done|]. split.
    + apply Hin. apply list_elem_of_here.
    + split.
      * intros Hlog. simpl in Hlog. exfalso. by eapply log_grows; [|exact Hlog].
      * intros [e He]. exfalso.
        assert (H1 : e1 = e) by (apply He, Hin, list_elem_of_here).
        assert (H2 : e2 = e)
          by (apply He, Hin, list_elem_of_further, list_elem_of_here).
        subst. apply NoDup_cons in Hnd as [Hnot _]. apply Hnot, list_elem_of_here.
Qed.

(** X14.  [get_player_fov] never fails and leaves the world alone; a map it
    returns is the map of the FOV component of an entity that holds IsPlayer
    and whose id is not 0. *)
Theorem get_player_fov_is_the_players (s : State) :
  exists r s',
    existence_more.get_player_fov s = (Ok r, s') /\ world s' = world s /\
    forall m, r = Some m ->
      exists p c f, p <> 0%nat /\ world s !! p = Some c /\ c_is_player c = Some tt /\
                    c_fov c = Some f /\ map f = m.
Proof.
  unfold existence_more.get_player_fov.
  destruct (get_player_total s) as [player Hplayer].
  pose proof Hplayer as Hplayer'.
  unfold existence.get_player in Hplayer'. rewrite (bind_ok _ _ s s s) in Hplayer' by done.
  rewrite (bind_ok _ _ _ _ _ Hplayer).
  destruct player as [p|]; [|by eexists None, _].
  assert (Hp : exists c, world s !! p = Some c /\ c_is_player c = Some tt).
  { destruct (query TIsPlayer s) as [|[p' []] l] eqn:Hq; [done|].
    injection Hplayer' as ->.
    assert (Hin : (p, tt) ∈ query TIsPlayer s) by (rewrite Hq; apply list_elem_of_here).
    by apply elem_of_query in Hin. }
  destruct Hp as (c & Hc & Hpl).
  destruct (Nat.eqb_spec p 0) as [->|Hne]; cbn [negb]; [by eexists None, _|].
  destruct (c_fov c) as [f|] eqn:Hf.
  - rewrite (bind_ok _ _ _ _ _ (get_entitys_component_found TFOV p c s Hc f Hf)).
    eexists (Some (map f)), _. split; [done|]. split; [done|].
    intros m [= <-]. by exists p, c, f.
  - rewrite (bind_ok _ _ _ _ _ (get_entitys_component_not_found TFOV p c s Hc Hf)).
    by eexists None, _.
Qed.

(** ** skills.py: the entities a cast affects *)

Lemma elem_of_combatants s e position :
  (e, position) ∈ skill_class.combatants s <->
  exists c, world s !! e = Some c /\ c_position c = Some position /\
            is_Some (c_resources c) /\ is_Some (c_combat_stats c).
Proof.
  unfold skill_class.combatants. rewrite list_elem_of_omap. split.
  - intros ([e' c] & Hin%elem_of_map_to_list & Hsome).
    destruct (c_position c) eqn:Hp, (c_resources c) eqn:Hr, (c_combat_stats c) eqn:Hs;
      try done.
    injection Hsome as -> ->. exists c. eauto.
  - intros (c & Hc & Hp & [r Hr] & [u Hu]). exists (e, c).
    split; [by apply elem_of_map_to_list|]. by rewrite Hp, Hr, Hu.
Qed.

Lemma NoDup_combatants s : NoDup (skill_class.combatants s).*1.
Proof.
  apply NoDup_omap_keys; [|apply NoDup_fst_map_to_list].
  intros k c k' b.
  destruct (c_position c), (c_resources c), (c_combat_stats c); try done.
  by intros [= -> _].
Qed.

Lemma NoDup_omap_fst {K V} (P : K * V -> bool) (l : list (K * V)) :
  NoDup l.*1 -> NoDup (omap (fun kv => if P kv then Some kv.1 else None) l).
Proof.
  induction l as [|[k v] l IH]; simpl; [constructor|].
  intros [Hk Hl]%NoDup_cons. destruct (P (k, v)); [|by apply IH].
  apply NoDup_cons. split; [|by apply IH].
  intros ([k' v'] & Hin & Hsome)%list_elem_of_omap. destruct (P (k', v')); [|done].
  injection Hsome as ->. apply Hk, list_elem_of_fmap. by exists (k, v').
Qed.

Lemma get_affected_entities_eq `{Act} (self : skill_class.t) (s : State) :
  skill_class.get_affected_entities self s
  = (Ok (omap (fun kv : EntityID * Position =>
                 if bool_decide
                      ((x kv.2, y kv.2)
                         ∈ (fun coord : Z * Z =>
                              (coord.1 + Tile.x (skill_class.target_tile self),
                               coord.2 + Tile.y (skill_class.target_tile self)))
                           <$> get_coords_from_shape (skill_class.shape self)
                                 (skill_class.shape_size self))
                 then Some kv.1 else None) (skill_class.combatants s)), s).
Proof.
  unfold skill_class.get_affected_entities. rewrite (bind_ok _ _ s s s) by done.
  unfold ret. do 2 f_equal. apply list_omap_ext.
  apply Forall2_same_length_lookup. split; [done|].
  intros i [e1 p1] [e2 p2] H1 H2. rewrite H1 in H2. by injection H2 as <- <-.
Qed.

(** X15.  [get_affected_entities] never fails and changes nothing; its list has
    no entity twice, and an entity is in it exactly when it holds Position,
    Resources and HasCombatStats and stands on the target tile shifted by one
    of the coordinates of the shape.  A cast over tiles on which no such entity
    stands affects nobody. *)
Theorem affected_entities_stand_on_the_shape `{Act} (self : skill_class.t) (s : State) :
  exists affected,
    skill_class.get_affected_entities self s = (Ok affected, s) /\
    NoDup affected /\
    forall e, e ∈ affected <->
      exists c position coord,
        world s !! e = Some c /\ c_position c = Some position /\
        is_Some (c_resources c) /\ is_Some (c_combat_stats c) /\
        coord ∈ get_coords_from_shape (skill_class.shape self) (skill_class.shape_size self) /\
        x position = coord.1 + Tile.x (skill_class.target_tile self) /\
        y position = coord.2 + Tile.y (skill_class.target_tile self).
Proof.
  eexists. split; [apply get_affected_entities_eq|]. split.
  - apply (NoDup_omap_fst (fun kv : EntityID * Position => bool_decide _)), NoDup_combatants.
  - intros e. rewrite list_elem_of_omap. split.
    + intros ([e' position] & (c & Hc & Hp & Hr & Hs)%elem_of_combatants & Hsome).
      simpl in Hsome. case_bool_decide as Hin; [|done]. injection Hsome as ->.
      apply list_elem_of_fmap in Hin as (coord & [= Hx Hy] & Hcoord).
      exists c, position, coord. done.
    + intros (c & position & coord & Hc & Hp & Hr & Hs & Hcoord & Hx & Hy).
      exists (e, position). split; [apply elem_of_combatants; eauto|]. simpl.
      rewrite bool_decide_true; [done|]. apply list_elem_of_fmap. exists coord.
      split; [by rewrite Hx, Hy | done].
Qed.

(** X16.  [apply] on a basic attack yields one pair for each affected entity,
    in the order of [get_affected_entities], and the pair holds a single damage
    effect from the user of the skill against that entity, with no follow-up
    effects. *)
Theorem apply_pairs_each_affected_entity `{Act} (user : EntityID) (target_tile : Tile.t)
    (s : State) :
  exists affected pairs,
    skill_class.get_affected_entities (skill_class.BasicAttack user target_tile) s
      = (Ok affected, s) /\
    skill_class.apply skill_class.BasicAttack_build_effects
      (skill_class.BasicAttack user target_tile) s = (Ok pairs, s) /\
    pairs.*1 = affected /\
    forall entity effects, (entity, effects) ∈ pairs ->
      exists effect, effects = [effect] /\ origin effect = user /\ victim effect = entity /\
                     de_success_effects effect = [] /\ failure_effects effect = [].
Proof.
  eexists _, _. split; [apply get_affected_entities_eq|]. split.
  - unfold skill_class.apply. by rewrite (bind_ok _ _ _ _ _ (get_affected_entities_eq _ s)).
  - split.
    + rewrite <- list_fmap_compose. apply list_fmap_id.
    + intros entity effects (e & [= -> ->] & _)%list_elem_of_fmap. by eexists.
Qed.

(** ** existence.py: entities in an area *)

Lemma elem_of_get_components components s e values :
  (e, values) ∈ get_components components s <->
  exists c, world s !! e = Some c /\ mapM (value_of c) components = Some values.
Proof.
  unfold get_components. rewrite list_elem_of_omap. split.
  - intros ([e' c] & Hin%elem_of_map_to_list & Hsome).
    destruct (mapM (value_of c) components) eqn:Hm; [|done].
    injection Hsome as -> ->. eauto.
  - intros (c & Hc & Hm). exists (e, c). split; [by apply elem_of_map_to_list|].
    by rewrite Hm.
Qed.

Lemma NoDup_get_components components s : NoDup (get_components components s).*1.
Proof.
  apply NoDup_omap_keys; [|apply NoDup_fst_map_to_list].
  intros k c k' b. destruct (mapM (value_of c) components); [|done]. by intros [= -> _].
Qed.

Lemma mapM_cons_option {A B} (f : A -> option B) a l :
  mapM f (a :: l)
  = match f a with
    | Some b => match mapM f l with Some k => Some (b :: k) | None => None end
    | None => None
    end.
Proof. cbn. destruct (f a); [|done]. cbn. by destruct (mapM f l). Qed.

Lemma value_of_position c : value_of c (any_type TPosition) = VPosition <$> c_position c.
Proof. done. Qed.

Lemma area_loop (area : list Tile.t) entity pos (values : list ComponentValue) :
  forall (entities : gmap EntityID (list ComponentValue)) s,
  exists entities',
    fold_m area (fun entities tile =>
      if (Tile.x tile =? x pos) && (Tile.y tile =? y pos)
      then ret (<[entity := values]> entities)
      else ret entities) entities s = (Ok entities', s) /\
    ((on_area area pos /\ entities' = <[entity := values]> entities) \/
     (~ on_area area pos /\ entities' = entities)).
Proof.
  induction area as [|tile area IH]; intros entities s.
  - exists entities. split; [done|]. right. split; [|done].
    intros (tile & []%elem_of_nil & _).
  - cbn [fold_m].
    destruct ((Tile.x tile =? x pos) && (Tile.y tile =? y pos)) eqn:Hhere.
    + rewrite (bind_ok _ _ s (<[entity := values]> entities) s) by done.
      destruct (IH (<[entity := values]> entities) s) as (entities' & Hrun & Hcases).
      exists entities'. split; [done|]. left.
      apply andb_true_iff in Hhere as [Hx%Z.eqb_eq Hy%Z.eqb_eq].
      split; [exists tile; split; [apply list_elem_of_here | done]|].
      destruct Hcases as [[_ ->]|[_ ->]]; [apply insert_insert_eq | done].
    + rewrite (bind_ok _ _ s entities s) by done.
      destruct (IH entities s) as (entities' & Hrun & Hcases).
      exists entities'. split; [done|].
      destruct Hcases as [[(t & Ht & Hxy) ->]|[Hnot ->]].
      * left. split; [|done]. exists t. split; [by apply list_elem_of_further | done].
      * right. split; [|done]. intros (t & [->|Ht]%elem_of_cons & Hx & Hy).
        -- rewrite Hx, Hy, !Z.eqb_refl in Hhere. done.
        -- apply Hnot. by exists t.
Qed.

Lemma entities_loop (area : list Tile.t) (l : list (EntityID * list ComponentValue)) :
  NoDup l.*1 ->
  (forall e values, (e, values) ∈ l -> exists pos rest, values = VPosition pos :: rest) ->
  forall (entities : gmap EntityID (list ComponentValue)) s,
  (forall e, e ∈ l.*1 -> entities !! e = None) ->
  exists entities',
    fold_m l (fun entities '(entity, values) =>
      match values with
      | VPosition pos :: rest =>
          fold_m area (fun entities tile =>
            if (Tile.x tile =? x pos) && (Tile.y tile =? y pos)
            then ret (<[entity := VPosition pos :: rest]> entities)
            else ret entities) entities
      | _ :: _ => raise (AttributeError "object has no attribute 'x'")
      | [] => raise (ValueError "not enough values to unpack")
      end) entities s = (Ok entities', s) /\
    forall e values, entities' !! e = Some values <->
      entities !! e = Some values \/
      ((e, values) ∈ l /\ exists pos rest, values = VPosition pos :: rest /\ on_area area pos).
Proof.
  induction l as [|[e1 v1] l IH]; intros Hnd Hpos entities s Hfresh.
  - exists entities. split; [done|]. intros e values. split; [auto|].
    intros [?|[[]%elem_of_nil _]]. done.
  - apply NoDup_cons in Hnd as [He1 Hnd]. cbn [fold_m].
    destruct (Hpos e1 v1) as (pos & rest & ->); [apply list_elem_of_here|].
    destruct (area_loop area e1 pos (VPosition pos :: rest) entities s)
      as (entities1 & Hrun1 & Hcases).
    rewrite (bind_ok _ _ _ _ _ Hrun1).
    assert (Hpos' : forall e values, (e, values) ∈ l ->
              exists pos rest, values = VPosition pos :: rest).
    { intros e values Hin. apply (Hpos e). by apply list_elem_of_further. }
    assert (Hfresh' : forall e, e ∈ l.*1 -> entities1 !! e = None).
    { intros e Hin. assert (e <> e1) by (intros ->; done).
      destruct Hcases as [[_ ->]|[_ ->]].
      - rewrite lookup_insert_ne by done. apply Hfresh. by apply list_elem_of_further.
      - apply Hfresh. by apply list_elem_of_further. }
    destruct (IH Hnd Hpos' entities1 s Hfresh') as (entities' & Hrun & Hchar).
    exists entities'. split; [done|]. intros e values. rewrite Hchar.
    assert (Hfresh1 : entities !! e1 = None) by apply Hfresh, list_elem_of_here.
    destruct Hcases as [[Hon ->]|[Hoff ->]].
    + split.
      * intros [Hl|(Hin & Hrest)].
        -- apply lookup_insert_Some in Hl as [[<- <-]|[_ Hl]]; [|by left].
           right. split; [apply list_elem_of_here | eauto].
        -- right. split; [by apply list_elem_of_further | done].
      * intros [Hl|(Hin & Hrest)].
        -- left. rewrite lookup_insert_ne; [done|]. intros <-. congruence.
        -- apply elem_of_cons in Hin as [[= -> ->]|Hin]; [|by right].
           left. apply lookup_insert_eq.
    + split.
      * intros [Hl|(Hin & Hrest)]; [by left|].
        right. split; [by apply list_elem_of_further | done].
      * intros [Hl|(Hin & Hrest)]; [by left|].
        apply elem_of_cons in Hin as [[= -> ->]|Hin]; [|by right].
        destruct Hrest as (pos' & rest' & [= <- <-] & Hon). done.
Qed.

(** X17.  [get_entities_and_components_in_area] never fails and changes
    nothing; an entity is a key of the dict exactly when it holds Position and
    every requested component and its position is that of a tile of the area,
    and its value is then the Position instance followed by the requested
    instances.  [None] entries of the request are skipped. *)
Theorem entities_in_area_are_on_a_tile (area : list Tile.t)
    (components : list (option AnyComponentType)) (s : State) :
  exists entities,
    existence_area.get_entities_and_components_in_area area components s = (Ok entities, s) /\
    forall e values, entities !! e = Some values <->
      exists c pos rest,
        world s !! e = Some c /\ c_position c = Some pos /\
        mapM (value_of c) (omap id components) = Some rest /\
        values = VPosition pos :: rest /\ on_area area pos.
Proof.
  unfold existence_area.get_entities_and_components_in_area. cbv zeta.
  rewrite (bind_ok _ _ s s s) by done.
  change (omap id (Some (any_type TPosition) :: components))
    with (any_type TPosition :: omap id components).
  set (requested := omap id components).
  assert (Hshape : forall e values,
    (e, values) ∈ get_components (any_type TPosition :: requested) s <->
    exists c pos rest, world s !! e = Some c /\ c_position c = Some pos /\
      mapM (value_of c) requested = Some rest /\ values = VPosition pos :: rest).
  { intros e values. rewrite elem_of_get_components. split.
    - intros (c & Hc & Hm). exists c.
      rewrite mapM_cons_option, value_of_position in Hm.
      destruct (c_position c) as [pos|]; [|done]. cbn [fmap option_fmap option_map] in Hm.
      destruct (mapM (value_of c) requested) as [rest|]; [|done].
      injection Hm as <-. by exists pos, rest.
    - intros (c & pos & rest & Hc & Hp & Hm & ->). exists c. split; [done|].
      by rewrite mapM_cons_option, value_of_position, Hp, Hm. }
  assert (Hpos : forall e values,
            (e, values) ∈ get_components (any_type TPosition :: requested) s ->
            exists pos rest, values = VPosition pos :: rest).
  { intros e values (c & pos & rest & _ & _ & _ & ->)%Hshape. eauto. }
  destruct (entities_loop area (get_components (any_type TPosition :: requested) s)
              (NoDup_get_components _ s) Hpos ∅ s) as (entities & Hrun & Hchar).
  { intros e _. apply lookup_empty. }
  exists entities. split; [done|]. intros e values. rewrite Hchar, lookup_empty. split.
  - intros [?|(Hin & pos & rest & -> & Hon)]; [done|].
    apply Hshape in Hin as (c & pos' & rest' & Hc & Hp & Hm & [= <- <-]).
    by exists c, pos, rest.
  - intros (c & pos & rest & Hc & Hp & Hm & -> & Hon). right. split; [|eauto].
    apply Hshape. by exists c, pos, rest.
Qed.

(** ** system.py: the immunity durations *)

Lemma same_but_log_refl s : same_but_log s s.
Proof. by repeat split. Qed.

Lemma same_but_log_trans s1 s2 s3 :
  same_but_log s1 s2 -> same_but_log s2 s3 -> same_but_log s1 s3.
Proof.
  unfold same_but_log. intros (?&?&?&?&?&?&?) (?&?&?&?&?&?&?).
  repeat split; congruence.
Qed.

(** A loop over the items of a dict that replaces or drops the value of the
    key it visits and otherwise only writes to the log. *)
Lemma fold_m_per_key {K V} `{Countable K} (body : gmap K V -> K * V -> M (gmap K V))
    (g : K -> V -> option V) (P : State -> Prop) (l : list (K * V)) :
  (forall s s', P s -> same_but_log s s' -> P s') ->
  (forall acc k v s, (k, v) ∈ l -> P s -> acc !! k = Some v ->
     exists acc1 s1, body acc (k, v) s = (Ok acc1, s1) /\
                     acc1 = partial_alter (fun _ => g k v) k acc /\ same_but_log s s1) ->
  forall acc s, NoDup l.*1 -> (forall k v, (k, v) ∈ l -> acc !! k = Some v) -> P s ->
  exists acc' s', fold_m l body acc s = (Ok acc', s') /\ same_but_log s s' /\
    forall k, acc' !! k = if decide (k ∈ l.*1) then acc !! k ≫= g k else acc !! k.
Proof.
  intros HP. induction l as [|[k v] l IH]; intros Hbody acc s Hnd Hacc Hs.
  - exists acc, s. split; [done|]. split; [apply same_but_log_refl|]. intros k.
    case_decide as Hin; [|done]. rewrite fmap_nil in Hin. by apply elem_of_nil in Hin.
  - rewrite fmap_cons in Hnd. apply NoDup_cons in Hnd as [Hk Hnd].
    assert (Hv : acc !! k = Some v) by apply Hacc, list_elem_of_here.
    destruct (Hbody acc k v s (list_elem_of_here _ _) Hs Hv)
      as (acc1 & s1 & Hrun1 & -> & Hlog1).
    assert (Hbody' : forall acc k0 v0 s, (k0, v0) ∈ l -> P s -> acc !! k0 = Some v0 ->
      exists acc1 s1, body acc (k0, v0) s = (Ok acc1, s1) /\
                      acc1 = partial_alter (fun _ => g k0 v0) k0 acc /\ same_but_log s s1).
    { intros acc0 k0 v0 s0 Hin. apply Hbody. by apply list_elem_of_further. }
    destruct (IH Hbody' (partial_alter (fun _ => g k v) k acc) s1 Hnd)
      as (acc' & s' & Hrun & Hlog & Hchar).
    { intros k' v' Hin. rewrite lookup_partial_alter_ne.
      - by apply Hacc, list_elem_of_further.
      - intros ->. apply Hk, list_elem_of_fmap. by exists (k', v'). }
    { by apply (HP s). }
    exists acc', s'. split; [|split].
    + cbn [fold_m]. by rewrite (bind_ok _ _ _ _ _ Hrun1).
    + by apply (same_but_log_trans s s1 s').
    + intros k'. rewrite Hchar, fmap_cons. cbn [fst].
      destruct (decide (k' = k)) as [->|Hne].
      * rewrite lookup_partial_alter_eq, Hv.
        case_decide as Hrest; case_decide as Hall; try done.
        exfalso. apply Hall, list_elem_of_here.
      * rewrite lookup_partial_alter_ne by done.
        case_decide as Hrest; case_decide as Hall; try done.
        -- exfalso. by apply Hall, list_elem_of_further.
        -- exfalso. by apply elem_of_cons in Hall as [?|?].
Qed.

Lemma get_name_only_logs s e c :
  world s !! e = Some c ->
  exists n s', existence.get_name e s = (Ok n, s') /\ same_but_log s s'.
Proof.
  intros Hc. rewrite (get_name_of_entity_aux s e c Hc).
  destruct (c_identity c); eexists _, _; (split; [done|]); by repeat split.
Qed.

Section Immunities.
Context `{Durations}.

Lemma reduce_immunities_eq (entity : EntityID) (active : gmap string Z) (s : State) :
  is_Some (world s !! entity) ->
  exists s', system_time.reduce_immunities entity active s
             = (Ok (omap reduced_duration active), s') /\ same_but_log s s'.
Proof.
  intros Hent. unfold system_time.reduce_immunities.
  destruct (fold_m_per_key
              (fun active '(immunity_name, duration) =>
                 let* (active, duration) :=
                   (if negb (duration =? INFINITE) then
                      let* current := dict_get active immunity_name in
                      ret (<[immunity_name := current - 1]> active, duration - 1)
                    else ret (active, duration)) in
                 if duration <=? 0 then
                   let* _ := dict_get active immunity_name in
                   let active := delete immunity_name active in
                   let* name := existence.get_name entity in
                   logging (LogDebug ("Removed " +:+ immunity_name +:+ " from '" +:+ name
                                      +:+ "'s list of immunities.")) >>
                   ret active
                 else ret active)
              (fun _ => reduced_duration)
              (fun s => is_Some (world s !! entity))
              (map_to_list active))
    with (acc := active) (s := s) as (acc' & s' & Hrun & Hlog & Hchar).
  - intros s1 s2 Hs1 Hsame. destruct Hsame as [-> _]. done.
  - intros acc k d s1 _ [c Hc] Hk. unfold reduced_duration.
    assert (Hfirst : exists acc1,
      (if negb (d =? INFINITE) then
         let* current := dict_get acc k in ret (<[k := current - 1]> acc, d - 1)
       else ret (acc, d)) s1
      = (Ok (acc1, if d =? INFINITE then d else d - 1), s1) /\
      acc1 = <[k := if d =? INFINITE then d else d - 1]> acc).
    { destruct (d =? INFINITE); cbn [negb].
      - exists acc. split; [done|]. symmetry. by apply insert_id.
      - eexists. split; [|done]. unfold dict_get. by rewrite Hk. }
    destruct Hfirst as (acc1 & Hfirst & ->).
    rewrite (bind_ok _ _ _ _ _ Hfirst). cbv beta iota.
    destruct ((if d =? INFINITE then d else d - 1) <=? 0) eqn:Hexp.
    + unfold dict_get at 1. rewrite lookup_insert_eq.
      rewrite (bind_ok _ _ s1 _ s1) by done.
      destruct (get_name_only_logs s1 entity c Hc) as (n & s2 & Hname & Hlog2).
      rewrite (bind_ok _ _ _ _ _ Hname).
      eexists _, _. split; [done|]. split.
      * rewrite delete_insert_eq. done.
      * apply (same_but_log_trans s1 s2); [done|]. by repeat split; apply Hlog2.
    + eexists _, _. split; [done|]. split; [done|]. apply same_but_log_refl.
  - apply NoDup_fst_map_to_list.
  - intros k v. by rewrite elem_of_map_to_list.
  - done.
  - exists s'. split; [|done]. etransitivity; [exact Hrun|]. do 2 f_equal.
    apply map_eq. intros k. rewrite Hchar, lookup_omap.
    case_decide as Hin; [done|].
    destruct (active !! k) as [d|] eqn:Hk; [|done]. exfalso. apply Hin.
    apply list_elem_of_fmap. exists (k, d). split; [done|]. by apply elem_of_map_to_list.
Qed.

(** X18.  With every entity of the column in the world, the immunity pass
    succeeds and changes nothing but the log: no entity leaves or joins the
    column, an infinite duration is kept as it is, any other is reduced by one,
    and an immunity whose duration is not positive afterwards is removed.  So
    every immunity left after the pass has a positive duration. *)
Theorem immunities_after_the_pass (immunities : gmap EntityID (gmap string Z)) (s : State) :
  (forall e, is_Some (immunities !! e) -> is_Some (world s !! e)) ->
  exists immunities' s',
    system_time.reduce_immunity_durations immunities s = (Ok immunities', s') /\
    same_but_log s s' /\
    immunities' = reduced_immunities <$> immunities /\
    forall e active immunity_name duration,
      immunities' !! e = Some active -> active !! immunity_name = Some duration ->
      0 < duration.
Proof.
  intros Hworld. unfold system_time.reduce_immunity_durations.
  destruct (fold_m_per_key
              (fun immunities '(entity, active) =>
                 let* active' := system_time.reduce_immunities entity active in
                 ret (<[entity := active']> immunities))
              (fun _ active => Some (omap reduced_duration active))
              (fun s' => same_but_log s s')
              (map_to_list immunities))
    with (acc := immunities) (s := s) as (acc' & s' & Hrun & Hlog & Hchar).
  - intros s1 s2. apply same_but_log_trans.
  - intros acc e active s1 Hin%elem_of_map_to_list Hs1 He.
    destruct (reduce_immunities_eq e active s1) as (s2 & Hrun2 & Hlog2).
    { destruct Hs1 as [-> _]. apply Hworld. eauto. }
    rewrite (bind_ok _ _ _ _ _ Hrun2). eexists _, _. split; [done|]. split; done.
  - apply NoDup_fst_map_to_list.
  - intros k v. by rewrite elem_of_map_to_list.
  - apply same_but_log_refl.
  - assert (Heq : acc' = reduced_immunities <$> immunities).
    { apply map_eq. intros e. rewrite Hchar, lookup_fmap.
      case_decide as Hin; [by destruct (immunities !! e)|].
      destruct (immunities !! e) as [a|] eqn:He; [|done]. exfalso. apply Hin.
      apply list_elem_of_fmap. exists (e, a). split; [done|]. by apply elem_of_map_to_list. }
    exists acc', s'. split; [done|]. split; [done|]. split; [done|].
    intros e active k d Hactive Hk. rewrite Heq, lookup_fmap in Hactive.
    destruct (immunities !! e) as [a|]; [|done]. simpl in Hactive. injection Hactive as <-.
    unfold reduced_immunities in Hk.
    rewrite lookup_omap in Hk. destruct (a !! k) as [d0|]; [|done]. simpl in Hk.
    unfold reduced_duration in Hk.
    destruct (Z.leb_spec (if d0 =? INFINITE then d0 else d0 - 1) 0); [done|].
    injection Hk as <-. done.
Qed.

End Immunities.

Lemma immunities_after_the_pass_witness :
  exists immunities' s',
    system_time.reduce_immunity_durations (H := infinite_999) rat_immunities sample_state
      = (Ok immunities', s') /\
    same_but_log sample_state s' /\
    immunities' = reduced_immunities (H := infinite_999) <$> rat_immunities /\
    forall e active immunity_name duration,
      immunities' !! e = Some active -> active !! immunity_name = Some duration ->
      0 < duration.
Proof.
  apply (immunities_after_the_pass (H := infinite_999) rat_immunities sample_state).
  intros e [a Ha]. unfold rat_immunities in Ha.
  apply lookup_singleton_Some in Ha as [<- _]. by eexists.
Defined.

(** ** system.py: what [process_fov] leaves alone *)

Lemma same_but_fov_and_log_refl s : same_but_fov_and_log s s.
Proof. by repeat split. Qed.

Lemma same_but_fov_and_log_trans s1 s2 s3 :
  same_but_fov_and_log s1 s2 -> same_but_fov_and_log s2 s3 -> same_but_fov_and_log s1 s3.
Proof.
  unfold same_but_fov_and_log. intros (?&?&?&?&?&?&H12) (?&?&?&?&?&?&H23).
  repeat split; try congruence; intros e; by rewrite H23, H12.
Qed.

Lemma for_each_keeps {A} (R : State -> State -> Prop) (l : list A) (body : A -> M unit) :
  (forall s, R s s) -> (forall s1 s2 s3, R s1 s2 -> R s2 s3 -> R s1 s3) ->
  (forall a s, R s (body a s).2) ->
  forall s, R s (for_each l body s).2.
Proof.
  intros Hrefl Htrans Hbody. induction l as [|a l IH]; intros s; [apply Hrefl|].
  cbn [for_each]. unfold bind. pose proof (Hbody a s) as Ha.
  destruct (body a s) as [[[]|e] s1]; [|done].
  by apply (Htrans s s1).
Qed.

Lemma fold_m_keeps_state {A B} (l : list A) (body : B -> A -> M B) :
  (forall b a s, (body b a s).2 = s) -> forall b s, (fold_m l body b s).2 = s.
Proof.
  intros Hbody. induction l as [|a l IH]; intros b s; [done|].
  cbn [fold_m]. unfold bind. pose proof (Hbody b a s) as Ha.
  destruct (body b a s) as [[b'|e] s1]; simpl in Ha; subst s1; [apply IH | done].
Qed.

Lemma array_set_keeps_state arr i j v s : (array_set arr i j v s).2 = s.
Proof.
  unfold array_set.
  by destruct (normalize_index (arr_width arr) i), (normalize_index (arr_height arr) j).
Qed.

Lemma updated_block_sight_map_keeps_state entity physicality others arr s :
  (system.updated_block_sight_map entity physicality others arr s).2 = s.
Proof.
  unfold system.updated_block_sight_map. apply fold_m_keeps_state.
  intros updated [other_entity [other_pos other_physicality]] s0.
  destruct (Nat.eqb entity other_entity); [done|].
  destruct (height physicality >? height other_physicality); [done|].
  apply fold_m_keeps_state. intros updated' [i j] s1. apply array_set_keeps_state.
Qed.

Lemma get_entitys_component_only_logs {A} (t : ComponentType A) e s :
  same_but_log s (existence.get_entitys_component e t s).2.
Proof.
  destruct (world s !! e) as [c|] eqn:Hc.
  - destruct (comp_get t c) as [a|] eqn:Ha.
    + rewrite (get_entitys_component_found t e c s Hc a Ha). apply same_but_log_refl.
    + rewrite (get_entitys_component_not_found t e c s Hc Ha). by repeat split.
  - unfold existence.get_entitys_component, has_component, entity_components, bind.
    rewrite Hc. apply same_but_log_refl.
Qed.

Lemma same_but_log_fov s s' : same_but_log s s' -> same_but_fov_and_log s s'.
Proof.
  intros (Hw & ? & ? & ? & ? & ? & ?). repeat split; try done. intros e. by rewrite Hw.
Qed.

Lemma store_fov_keeps e v s :
  same_but_fov_and_log s (set_world (alter (comp_set TFOV (Some v)) e) s).
Proof.
  assert (Hw : forall e', comp_set TFOV None <$> alter (comp_set TFOV (Some v)) e (world s) !! e'
                          = comp_set TFOV None <$> world s !! e').
  { intros e'. destruct (decide (e' = e)) as [->|Hne].
    - rewrite lookup_alter_eq. by destruct (world s !! e) as [c|].
    - by rewrite lookup_alter_ne. }
  by repeat split.
Qed.

(** X19.  [process_fov], whether it succeeds or fails on the way, creates and
    removes no entity, touches no component other than FOV, publishes and
    schedules nothing, and leaves the shared transparency layer as it was: the
    blocking tiles of other entities are written to a copy. *)
Theorem process_fov_only_writes_fov `{Tcod} (s : State) :
  same_but_fov_and_log s (system.process_fov s).2.
Proof.
  unfold system.process_fov. rewrite (bind_ok _ _ s s s) by done.
  apply for_each_keeps;
    [apply same_but_fov_and_log_refl | apply same_but_fov_and_log_trans |].
  intros [entity [pos physicality]] s0.
  rewrite (bind_ok _ _ s0 s0 s0) by done. unfold bind at 1.
  pose proof (updated_block_sight_map_keeps_state entity physicality
                (system.active_and_position_and_physicality s0) (block_sight_map s) s0)
    as Hupd.
  destruct (system.updated_block_sight_map _ _ _ _ s0) as [[updated|x] s1];
    simpl in Hupd; subst s1; [|apply same_but_fov_and_log_refl].
  unfold bind at 1.
  pose proof (get_entitys_component_only_logs TSight entity s0) as Hlog.
  destruct (existence.get_entitys_component entity TSight s0) as [[sight|x] s1];
    simpl in Hlog; [|by apply same_but_log_fov].
  destruct sight as [sg|]; simpl.
  - apply (same_but_fov_and_log_trans s0 s1); [by apply same_but_log_fov|].
    apply store_fov_keeps.
  - by apply same_but_log_fov.
Qed.

(** ** system.py: the light map *)

Lemma broadcast_index_in_bounds n i : 0 <= i < n -> broadcast_index n i = i.
Proof.
  intros Hi. unfold broadcast_index. destruct (Z.eqb_spec n 1); [lia | done].
Qed.

Lemma array_ior_same_shape a b w h s :
  has_shape a w h -> has_shape b w h ->
  exists c, array_ior a b s = (Ok c, s) /\ has_shape c w h /\
    forall i j, 0 <= i < w -> 0 <= j < h ->
      arr_cell c i j = arr_cell a i j || arr_cell b i j.
Proof.
  intros [Hwa Hha] [Hwb Hhb]. unfold array_ior.
  rewrite Hwa, Hha, Hwb, Hhb, !Z.eqb_refl. simpl.
  eexists. split; [done|]. split; [done|]. intros i j Hi Hj. simpl.
  by rewrite !broadcast_index_in_bounds.
Qed.

Section LightMap.
Context `{Tcod}.
Variables (w h : Z) (block_sight_map : Array2D).

Lemma light_loop (sources : list (EntityID * (LightSource * Position))) :
  (forall origin r, has_shape (compute_fov block_sight_map origin r) w h) ->
  forall light_map s, has_shape light_map w h ->
  exists light_map',
    fold_m sources (fun light_map '(entity, (light_source, pos)) =>
      let radius := radius light_source in
      let fov := compute_fov block_sight_map (x pos, y pos) radius in
      array_ior light_map fov) light_map s = (Ok light_map', s) /\
    has_shape light_map' w h /\
    forall i j, 0 <= i < w -> 0 <= j < h ->
      (arr_cell light_map' i j = true <->
       arr_cell light_map i j = true \/
       exists entity light_source pos,
         (entity, (light_source, pos)) ∈ sources /\
         arr_cell (compute_fov block_sight_map (x pos, y pos) (radius light_source)) i j
         = true).
Proof.
  intros Hfov. induction sources as [|[e [ls pos]] sources IH]; intros lm s Hlm.
  - exists lm. split; [done|]. split; [done|]. intros i j _ _. split; [auto|].
    intros [?|(?&?&?&[]%elem_of_nil&_)]. done.
  - cbn [fold_m]. cbv zeta.
    destruct (array_ior_same_shape lm
                (compute_fov block_sight_map (x pos, y pos) (radius ls)) w h s Hlm
                (Hfov _ _)) as (lm1 & Hrun1 & Hshape1 & Hcell1).
    rewrite (bind_ok _ _ _ _ _ Hrun1).
    destruct (IH lm1 s Hshape1) as (lm' & Hrun & Hshape & Hcell).
    exists lm'. split; [done|]. split; [done|].
    intros i j Hi Hj. rewrite (Hcell i j Hi Hj), (Hcell1 i j Hi Hj), orb_true_iff. split.
    + intros [[?|Hhere]|(e' & ls' & pos' & Hin & Hlit)]; auto.
      * right. exists e, ls, pos. split; [apply list_elem_of_here | done].
      * right. exists e', ls', pos'. split; [by apply list_elem_of_further | done].
    + intros [?|(e' & ls' & pos' & Hin & Hlit)]; auto.
      apply elem_of_cons in Hin as [[= -> -> ->]|Hin]; auto.
      right. by exists e', ls', pos'.
Qed.

End LightMap.

(** X20.  When the field of view of every light source has the shape of the
    light map, [process_light_map] succeeds, changes nothing in the state and
    nothing of the map but the light map, and the new light map has the same
    shape and is lit exactly at the tiles that the field of view of some light
    source reaches: what was lit before plays no part, and without light
    sources the map is dark. *)
Theorem light_map_is_the_union_of_the_sources `{Tcod}
    (sources : list (EntityID * (LightSource * Position))) (game_map : GameMap.t)
    (s : State) (w h : Z) :
  has_shape (GameMap.light_map game_map) w h ->
  (forall origin r, has_shape (compute_fov (block_sight_map s) origin r) w h) ->
  exists game_map',
    system_vision.process_light_map sources game_map s = (Ok game_map', s) /\
    GameMap.width game_map' = GameMap.width game_map /\
    GameMap.height game_map' = GameMap.height game_map /\
    GameMap.tile_map game_map' = GameMap.tile_map game_map /\
    has_shape (GameMap.light_map game_map') w h /\
    forall i j, 0 <= i < w -> 0 <= j < h ->
      (arr_cell (GameMap.light_map game_map') i j = true <->
       exists entity light_source pos,
         (entity, (light_source, pos)) ∈ sources /\
         arr_cell (compute_fov (block_sight_map s) (x pos, y pos) (radius light_source)) i j
         = true).
Proof.
  intros Hlm Hfov. unfold system_vision.process_light_map. cbv zeta.
  rewrite (bind_ok _ _ s s s) by done.
  destruct (light_loop w h (block_sight_map s) sources Hfov
              (array_fill (GameMap.light_map game_map) false) s)
    as (lm' & Hrun & Hshape & Hcell); [done|].
  rewrite (bind_ok _ _ _ _ _ Hrun).
  eexists. split; [done|]. split; [done|]. split; [done|]. split; [done|].
  split; [done|]. intros i j Hi Hj. simpl. rewrite (Hcell i j Hi Hj). simpl.
  split; [intros [?|?]; done | auto].
Qed.

Lemma light_map_is_the_union_of_the_sources_witness :
  exists game_map',
    system_vision.process_light_map (H := origin_only) [a_lamp] small_map seeing_state
      = (Ok game_map', seeing_state) /\
    GameMap.width game_map' = GameMap.width small_map /\
    GameMap.height game_map' = GameMap.height small_map /\
    GameMap.tile_map game_map' = GameMap.tile_map small_map /\
    has_shape (GameMap.light_map game_map') 3 2 /\
    forall i j, 0 <= i < 3 -> 0 <= j < 2 ->
      (arr_cell (GameMap.light_map game_map') i j = true <->
       exists entity light_source pos,
         (entity, (light_source, pos)) ∈ [a_lamp] /\
         arr_cell (compute_fov (Tcod := origin_only) (block_sight_map seeing_state)
                     (x pos, y pos) (radius light_source)) i j
         = true).
Proof.
  apply (light_map_is_the_union_of_the_sources (H := origin_only) [a_lamp] small_map
           seeing_state 3 2).
  - split; reflexivity.
  - intros origin r. split; reflexivity.
Defined.

(** ** system.py: the visible tiles *)

Lemma list_index_in_range {A} (l : list A) i a s :
  0 <= i -> l !! Z.to_nat i = Some a -> list_index l i s = (Ok (Z.to_nat i, a), s).
Proof.
  intros Hi Ha. unfold list_index.
  assert (Hlen : (Z.to_nat i < length l)%nat) by (by eapply lookup_lt_Some).
  rewrite normalize_index_in_bounds by lia. by rewrite Ha.
Qed.

Lemma repainted_refl tile_map : repainted (fun _ _ => None) tile_map tile_map.
Proof.
  intros x y _ _. destruct (tile_at tile_map x y) as [[]|]; done.
Qed.

Lemma repainted_trans f g tm1 tm2 tm3 :
  repainted f tm1 tm2 -> repainted g tm2 tm3 ->
  repainted (fun x y => match g x y with Some v => Some v | None => f x y end) tm1 tm3.
Proof.
  intros H12 H23 x y Hx Hy. rewrite (H23 x y Hx Hy), (H12 x y Hx Hy).
  destruct (tile_at tm1 x y) as [t|]; [|done]. simpl. unfold seen. simpl.
  by destruct (g x y).
Qed.

Lemma repainted_ext f g tm tm' :
  (forall x y, 0 <= x -> 0 <= y -> f x y = g x y) -> repainted f tm tm' -> repainted g tm tm'.
Proof.
  intros Hfg Hf x y Hx Hy. rewrite <- Hfg by done. by apply Hf.
Qed.

Lemma repainted_is_Some f tm tm' x y :
  repainted f tm tm' -> 0 <= x -> 0 <= y ->
  is_Some (tile_at tm x y) -> is_Some (tile_at tm' x y).
Proof.
  intros Hf Hx Hy [t Ht]. rewrite (Hf x y Hx Hy), Ht. by eexists.
Qed.

Lemma set_is_visible_at tile_map x y v s :
  0 <= x -> 0 <= y -> is_Some (tile_at tile_map x y) ->
  exists tile_map',
    set_is_visible tile_map x y v s = (Ok tile_map', s) /\
    repainted (fun x' y' => if bool_decide (x' = x /\ y' = y) then Some v else None)
      tile_map tile_map'.
Proof.
  intros Hx Hy [t Ht]. unfold tile_at in Ht.
  destruct (tile_map !! Z.to_nat x) as [row|] eqn:Hrow; [|done]. simpl in Ht.
  unfold set_is_visible.
  rewrite (bind_ok _ _ _ _ _ (list_index_in_range tile_map x row s Hx Hrow)).
  rewrite (bind_ok _ _ _ _ _ (list_index_in_range row y t s Hy Ht)).
  eexists. split; [done|]. intros x' y' Hx' Hy'. unfold tile_at.
  destruct (decide (x' = x)) as [->|Hne].
  - rewrite list_lookup_insert_eq by (by eapply lookup_lt_Some). rewrite Hrow. simpl.
    destruct (decide (y' = y)) as [->|Hne].
    + rewrite list_lookup_insert_eq by (by eapply lookup_lt_Some).
      rewrite bool_decide_true by done. by rewrite Ht.
    + rewrite list_lookup_insert_ne by lia.
      rewrite bool_decide_false by (intros [_ ?]; done).
      by destruct (row !! Z.to_nat y') as [[]|].
  - rewrite list_lookup_insert_ne by lia.
    rewrite bool_decide_false by (intros [? _]; done).
    destruct (tile_map !! Z.to_nat x') as [row'|]; [|done]. simpl.
    by destruct (row' !! Z.to_nat y') as [[]|].
Qed.

Section VisibilityLoops.
Variable g : Z -> Z -> bool.

Lemma row_loop x (ys : list Z) (body : list (list MapTile) -> Z -> M (list (list MapTile))) :
  0 <= x ->
  (forall tm y s, y ∈ ys -> body tm y s = set_is_visible tm x y (g x y) s) ->
  forall tm s,
    (forall y, y ∈ ys -> 0 <= y /\ is_Some (tile_at tm x y)) ->
    exists tm',
      fold_m ys body tm s = (Ok tm', s) /\
      repainted (fun x' y' => if bool_decide (x' = x /\ y' ∈ ys) then Some (g x' y') else None)
        tm tm'.
Proof.
  intros Hx. induction ys as [|y ys IH]; intros Hbody tm s Htiles.
  - exists tm. split; [done|]. eapply repainted_ext; [|apply repainted_refl].
    intros x' y' _ _. rewrite bool_decide_false; [done|]. by intros [_ ?%elem_of_nil].
  - cbn [fold_m]. destruct (Htiles y) as [Hy Hsome]; [apply list_elem_of_here|].
    destruct (set_is_visible_at tm x y (g x y) s Hx Hy Hsome) as (tm1 & Hrun1 & Hp1).
    rewrite <- Hbody in Hrun1 by apply list_elem_of_here.
    rewrite (bind_ok _ _ _ _ _ Hrun1).
    destruct (IH (fun tm y s Hin => Hbody tm y s (list_elem_of_further _ _ _ Hin)) tm1 s)
      as (tm' & Hrun & Hp).
    { intros y' Hin. destruct (Htiles y') as [Hy' Hsome']; [by apply list_elem_of_further|].
      split; [done|]. by eapply repainted_is_Some. }
    exists tm'. split; [done|].
    eapply repainted_ext; [|exact (repainted_trans _ _ _ _ _ Hp1 Hp)].
    intros x' y' _ _. cbv beta.
    destruct (decide (x' = x /\ y' ∈ ys)) as [[-> Hin]|Hout].
    + rewrite !bool_decide_true; [done| |done]. split; [done|]. by apply list_elem_of_further.
    + rewrite (bool_decide_false (x' = x /\ y' ∈ ys)) by done.
      destruct (decide (x' = x /\ y' = y)) as [[-> ->]|Hne].
      * rewrite !bool_decide_true; [done| |done]. split; [done|]. apply list_elem_of_here.
      * rewrite !bool_decide_false; [done| |done].
        intros [-> [->|Hin]%elem_of_cons]; [by apply Hne | by apply Hout].
Qed.

Lemma grid_loop (xs ys : list Z)
    (body : Z -> list (list MapTile) -> Z -> M (list (list MapTile))) :
  (forall x tm y s, x ∈ xs -> y ∈ ys -> body x tm y s = set_is_visible tm x y (g x y) s) ->
  forall tm s,
    (forall x y, x ∈ xs -> y ∈ ys -> 0 <= x /\ 0 <= y /\ is_Some (tile_at tm x y)) ->
    exists tm',
      fold_m xs (fun tm x => fold_m ys (body x) tm) tm s = (Ok tm', s) /\
      repainted (fun x' y' => if bool_decide (x' ∈ xs /\ y' ∈ ys) then Some (g x' y') else None)
        tm tm'.
Proof.
  destruct ys as [|y0 ys0] eqn:Hys.
  { intros _ tm s _. exists tm. split.
    - induction xs as [|x xs' IH]; [done|]. cbn [fold_m]. by rewrite (bind_ok _ _ s tm s).
    - eapply repainted_ext; [|apply repainted_refl].
      intros x' y' _ _. rewrite bool_decide_false; [done|]. by intros [_ ?%elem_of_nil]. }
  rewrite <- Hys. assert (Hy0 : y0 ∈ ys) by (rewrite Hys; apply list_elem_of_here).
  clear Hys. induction xs as [|x xs IH]; intros Hbody tm s Htiles.
  - exists tm. split; [done|]. eapply repainted_ext; [|apply repainted_refl].
    intros x' y' _ _. rewrite bool_decide_false; [done|]. by intros [?%elem_of_nil _].
  - cbn [fold_m].
    assert (Hx : 0 <= x) by (by destruct (Htiles x y0) as [? _]; [apply list_elem_of_here|..]).
    destruct (row_loop x ys (body x) Hx) with (tm := tm) (s := s) as (tm1 & Hrun1 & Hp1).
    { intros tm0 y s0 Hin. apply Hbody; [apply list_elem_of_here | done]. }
    { intros y Hin. destruct (Htiles x y) as (_ & ? & ?); [apply list_elem_of_here|done|done]. }
    rewrite (bind_ok _ _ _ _ _ Hrun1).
    destruct (IH (fun x tm y s Hin => Hbody x tm y s (list_elem_of_further _ _ _ Hin)) tm1 s)
      as (tm' & Hrun & Hp).
    { intros x' y' Hinx Hiny.
      destruct (Htiles x' y') as (Hx' & Hy' & Hsome); [by apply list_elem_of_further|done|].
      split; [done|]. split; [done|]. by eapply repainted_is_Some. }
    exists tm'. split; [done|].
    eapply repainted_ext; [|exact (repainted_trans _ _ _ _ _ Hp1 Hp)].
    intros x' y' _ _. cbv beta.
    destruct (decide (x' ∈ xs /\ y' ∈ ys)) as [[Hinx Hiny]|Hout].
    + rewrite !bool_decide_true; [done| |done]. split; [by apply list_elem_of_further|done].
    + rewrite (bool_decide_false (x' ∈ xs /\ y' ∈ ys)) by done.
      destruct (decide (x' = x /\ y' ∈ ys)) as [[-> Hin]|Hne].
      * rewrite !bool_decide_true; [done| |done]. split; [apply list_elem_of_here|done].
      * rewrite !bool_decide_false; [done| |done].
        intros [[->|Hin]%elem_of_cons Hiny]; [by apply Hne | by apply Hout].
Qed.

End VisibilityLoops.

Lemma array_and_same_shape a b w h s :
  has_shape a w h -> has_shape b w h ->
  exists c, array_and a b s = (Ok c, s) /\ has_shape c w h /\
    forall i j, 0 <= i < w -> 0 <= j < h ->
      arr_cell c i j = arr_cell a i j && arr_cell b i j.
Proof.
  intros [Hwa Hha] [Hwb Hhb]. unfold array_and, broadcast_length.
  rewrite Hwa, Hha, Hwb, Hhb, !Z.eqb_refl.
  eexists. split; [done|]. split; [done|]. intros i j Hi Hj. simpl.
  by rewrite !broadcast_index_in_bounds.
Qed.

Lemma array_get_in_bounds a w h x y s :
  has_shape a w h -> 0 <= x < w -> 0 <= y < h -> array_get a x y s = (Ok (arr_cell a x y), s).
Proof.
  intros [Hw Hh] Hx Hy. unfold array_get.
  by rewrite !normalize_index_in_bounds by lia.
Qed.

(** X21.  When the player holds a FOV component whose map has the shape of the
    light map, [width] by [height], and the tile map has a tile at every place
    of that range, [process_tile_visibility] succeeds and changes neither the
    state nor the map's size and light map; afterwards a tile within the range
    is visible exactly when the player's field of view and the light map both
    hold there, whatever its visibility was before, and tiles outside the
    range are as they were. *)
Theorem tiles_visible_where_seen_and_lit (game_map : GameMap.t) (s : State)
    (player : EntityID) (c : Components) (fov : FOV) :
  existence.get_player s = (Ok (Some player), s) ->
  world s !! player = Some c ->
  c_fov c = Some fov ->
  has_shape (map fov) (GameMap.width game_map) (GameMap.height game_map) ->
  has_shape (GameMap.light_map game_map) (GameMap.width game_map) (GameMap.height game_map) ->
  (forall x y, 0 <= x < GameMap.width game_map -> 0 <= y < GameMap.height game_map ->
     is_Some (tile_at (GameMap.tile_map game_map) x y)) ->
  exists game_map',
    system_vision.process_tile_visibility game_map s = (Ok game_map', s) /\
    GameMap.width game_map' = GameMap.width game_map /\
    GameMap.height game_map' = GameMap.height game_map /\
    GameMap.light_map game_map' = GameMap.light_map game_map /\
    forall x y, 0 <= x -> 0 <= y ->
      tile_at (GameMap.tile_map game_map') x y =
      (fun t => mkMapTile (tile t)
                  (if (x <? GameMap.width game_map) && (y <? GameMap.height game_map)
                   then arr_cell (map fov) x y && arr_cell (GameMap.light_map game_map) x y
                   else is_visible t))
      <$> tile_at (GameMap.tile_map game_map) x y.
Proof.
  destruct game_map as [w h light tm]. simpl.
  intros Hplayer Hc Hfov Hshape_fov Hshape_light Htiles.
  unfold system_vision.process_tile_visibility. cbn [GameMap.width GameMap.height
    GameMap.light_map GameMap.tile_map].
  rewrite (bind_ok _ _ _ _ _ Hplayer).
  rewrite (bind_ok _ _ _ _ _ (get_entitys_component_found TFOV player c s Hc fov Hfov)).
  rewrite (bind_ok _ _ s fov s) by done.
  assert (Hin : forall x y, x ∈ seqZ 0 w -> y ∈ seqZ 0 h -> 0 <= x < w /\ 0 <= y < h).
  { intros x y Hx%elem_of_seqZ Hy%elem_of_seqZ. lia. }
  destruct (grid_loop (fun _ _ => false) (seqZ 0 w) (seqZ 0 h)
              (fun x tm y => set_is_visible tm x y false)) with (tm := tm) (s := s)
    as (tm1 & Hrun1 & Hp1); [done| |].
  { intros x y Hx Hy. destruct (Hin x y Hx Hy) as [Hx' Hy'].
    split; [lia|]. split; [lia|]. by apply Htiles. }
  rewrite (bind_ok _ _ _ _ _ Hrun1).
  destruct (array_and_same_shape (map fov) light w h s Hshape_fov Hshape_light)
    as (visible_map & Hand & Hshape & Hcell).
  rewrite (bind_ok _ _ _ _ _ Hand).
  destruct (grid_loop (arr_cell visible_map) (seqZ 0 w) (seqZ 0 h)
              (fun x tm y => let* v := array_get visible_map x y in set_is_visible tm x y v))
    with (tm := tm1) (s := s) as (tm2 & Hrun2 & Hp2).
  { intros x tm0 y s0 Hx Hy. destruct (Hin x y Hx Hy) as [Hx' Hy'].
    by rewrite (bind_ok _ _ _ _ _ (array_get_in_bounds visible_map w h x y s0 Hshape Hx' Hy')). }
  { intros x y Hx Hy. destruct (Hin x y Hx Hy) as [Hx' Hy'].
    split; [lia|]. split; [lia|]. eapply repainted_is_Some; [exact Hp1|lia|lia|].
    by apply Htiles. }
  rewrite (bind_ok _ _ _ _ _ Hrun2).
  eexists. split; [done|]. split; [done|]. split; [done|]. split; [done|].
  intros x y Hx Hy. simpl.
  rewrite (repainted_trans _ _ _ _ _ Hp1 Hp2 x y Hx Hy).
  destruct (tile_at tm x y) as [t|]; [|done]. simpl. f_equal. unfold seen. f_equal.
  destruct (Z.ltb_spec x w) as [Hxw|Hxw]; simpl.
  - destruct (Z.ltb_spec y h) as [Hyh|Hyh]; simpl.
    + rewrite bool_decide_true by (split; apply elem_of_seqZ; lia).
      simpl. apply Hcell; lia.
    + rewrite bool_decide_false; [done|]. intros [_ ?%elem_of_seqZ]. lia.
  - rewrite bool_decide_false; [done|]. intros [?%elem_of_seqZ _]. lia.
Qed.

Lemma tiles_visible_where_seen_and_lit_witness :
  exists game_map',
    system_vision.process_tile_visibility small_map seeing_state
      = (Ok game_map', seeing_state) /\
    GameMap.width game_map' = 3 /\
    GameMap.height game_map' = 2 /\
    GameMap.light_map game_map' = GameMap.light_map small_map /\
    forall x y, 0 <= x -> 0 <= y ->
      tile_at (GameMap.tile_map game_map') x y =
      (fun t => mkMapTile (tile t)
                  (if (x <? 3) && (y <? 2)
                   then (x =? 0) && true
                   else is_visible t))
      <$> tile_at (GameMap.tile_map small_map) x y.
Proof.
  apply (tiles_visible_where_seen_and_lit small_map seeing_state 1%nat
           (comp_set TFOV (Some (mkFOV (mkArray2D 3 2 (fun i _ => i =? 0)))) the_player)
           (mkFOV (mkArray2D 3 2 (fun i _ => i =? 0)))).
  - reflexivity.
  - reflexivity.
  - reflexivity.
  - split; reflexivity.
  - split; reflexivity.
  - intros x y Hx Hy. simpl in Hx, Hy.
    assert (Hxs : x = 0 \/ x = 1 \/ x = 2) by lia.
    assert (Hys : y = 0 \/ y = 1) by lia.
    destruct Hxs as [Hx0|[Hx0|Hx0]]; destruct Hys as [Hy0|Hy0]; subst x y; by eexists.
Defined.
